(** * tai64: TAI64 / TAI64N labels to [time.Time]

    A shallow embedding of the Go package [tai64] (file [tai64n.go]) and
    of the few functions of the Go standard library it calls
    ([time.Unix], [strconv.ParseUint], [binary.BigEndian.Uint64/32]),
    followed by the properties of the package.

    Conventions.
    - Go's fixed-width integers are integers of [Z]; every operation that
      can leave the range of its type is followed by the wrap-around of
      that type ([wrap_int64], [wrap_uint64], ...).
    - A Go [string] is a sequence of bytes: [string] of 8-bit [ascii].
      A [[]byte] is a [list byte].
    - A function that can stop with a run-time panic (index or slice out
      of range) returns an [option]; [None] is the panic. *)

From Stdlib Require Import ZArith List Bool Lia String Ascii Sorted.
From Stdlib Require Import Init.Byte Strings.Byte.
Import ListNotations.

Local Open Scope Z_scope.

(* ================================================================= *)
(** ** Machine integers *)

Module Int.

Definition min_int64 : Z := - 2 ^ 63.
Definition max_int64 : Z := 2 ^ 63 - 1.
Definition max_uint64 : Z := 2 ^ 64 - 1.

Definition in_int64 (z : Z) : Prop := min_int64 <= z <= max_int64.
Definition in_uint64 (z : Z) : Prop := 0 <= z <= max_uint64.

(** Conversion to (and arithmetic in) a signed 64-bit type. *)
Definition wrap_int64 (z : Z) : Z := (z + 2 ^ 63) mod 2 ^ 64 - 2 ^ 63.
(** Conversion to (and arithmetic in) an unsigned type. *)
Definition wrap_uint64 (z : Z) : Z := z mod 2 ^ 64.
Definition wrap_uint32 (z : Z) : Z := z mod 2 ^ 32.
Definition wrap_int32 (z : Z) : Z := (z + 2 ^ 31) mod 2 ^ 32 - 2 ^ 31.
(** Go's [int]; 64 bits wide on the platforms considered here. *)
Definition wrap_int (z : Z) : Z := wrap_int64 z.

(** Go's integer division truncates toward zero. *)
Definition div64 (a b : Z) : Z := wrap_int64 (Z.quot a b).

End Int.
Import Int.

(* ================================================================= *)
(** ** The part of package [time] that is used

    [time.Time] with the layout of the Go releases the package was
    written for: seconds since January 1, year 1 00:00:00 UTC, a
    nanosecond in [0, 999999999] and a location. *)

Inductive Location : Type :=
| nilLocation   (* the nil pointer, read as UTC *)
| time_Local.   (* [time.Local] *)

Record Time : Type := mkTime {
  sec  : Z;          (* int64 *)
  nsec : Z;          (* int32 *)
  loc  : Location
}.

(** [time.Time{}] *)
Definition zeroTime : Time := mkTime 0 0 nilLocation.

Definition unixToInternal : Z :=
  (1969 * 365 + 1969 / 4 - 1969 / 100 + 1969 / 400) * 86400.
Definition internalToUnix : Z := - unixToInternal.

(** [time.Unix(sec, nsec)] *)
Definition time_Unix (sec nsec : Z) : Time :=
  let '(sec, nsec) :=
    if (nsec <? 0) || (nsec >=? 1000000000) then
      let n := div64 nsec 1000000000 in
      let sec := wrap_int64 (sec + n) in
      let nsec := wrap_int64 (nsec - wrap_int64 (n * 1000000000)) in
      if nsec <? 0
      then (wrap_int64 (sec - 1), wrap_int64 (nsec + 1000000000))
      else (sec, nsec)
    else (sec, nsec) in
  mkTime (wrap_int64 (sec + unixToInternal)) (wrap_int32 nsec) time_Local.

(** [t.IsZero()] *)
Definition Time_IsZero (t : Time) : bool := (sec t =? 0) && (nsec t =? 0).

(** [t.Unix()] *)
Definition Time_Unix (t : Time) : Z := wrap_int64 (sec t + internalToUnix).

(** [t.Nanosecond()] *)
Definition Time_Nanosecond (t : Time) : Z := nsec t.

(** [t.Before(u)] *)
Definition Time_Before (t u : Time) : bool :=
  (sec t <? sec u) || ((sec t =? sec u) && (nsec t <? nsec u)).

(** [t.Equal(u)] *)
Definition Time_Equal (t u : Time) : bool :=
  (sec t =? sec u) && (nsec t =? nsec u).

(* ================================================================= *)
(** ** Package-level variables *)

(** [var leapSeconds = []int64{...}]: the leap seconds added since 1972,
    in TAI seconds since the Unix epoch, most recent first. *)
Definition leapSeconds : list Z :=
  [ 1341100834;
    1230768033;
    1136073632;
    915148831;
    867715230;
    820454429;
    773020828;
    741484827;
    709948826;
    662688025;
    631152024;
    567993623;
    489024022;
    425865621;
    394329620;
    362793619;
    315532818;
    283996817;
    252460816;
    220924815;
    189302414;
    157766413;
    126230412;
    94694411;
    78796810;
    63072009 ].

(** [type Error struct { message string }] *)
Record Error : Type := mkError { message : string }.

(** [func (e Error) Error() string] *)
Definition Error_Error (e : Error) : string := message e.

(** [var parseError = Error{"Parse Error"}] *)
Definition parseError : Error := mkError "Parse Error".

(* ================================================================= *)
(** ** [EpochTime] *)

(** The body of [for _, l := range leapSeconds { offset--; if secs > l
    { break } }], as a function of the part of the table still to be
    visited and of the current [offset]; the result is [offset] after
    the loop. *)
Fixpoint EpochTime_loop (tbl : list Z) (secs offset : Z) : Z :=
  match tbl with
  | [] => offset
  | l :: rest =>
      let offset := wrap_int (offset - 1) in
      if secs >? l then offset else EpochTime_loop rest secs offset
  end.

(** [offset] as [EpochTime] has it when it reaches its [return]. *)
Definition EpochTime_offset (secs : Z) : Z :=
  let offset := wrap_int (Z.of_nat (List.length leapSeconds) + 10) in
  EpochTime_loop leapSeconds secs offset.

(** [func EpochTime(secs, nsecs int64) time.Time] *)
Definition EpochTime (secs nsecs : Z) : Time :=
  let offset := EpochTime_offset secs in
  time_Unix (wrap_int64 (secs - wrap_int64 offset)) nsecs.

(* ================================================================= *)
(** ** Strings, slices and panics *)

(** The panic (option) monad. *)
Definition bind {A B : Type} (m : option A) (k : A -> option B) : option B :=
  match m with
  | Some a => k a
  | None => None
  end.

Notation "x <- m ;; k" := (bind m (fun x => k))
  (at level 61, m at next level, right associativity).
Notation "' pat <- m ;; k" := (bind m (fun x => match x with pat => k end))
  (at level 61, pat pattern, m at next level, right associativity).

(** The value of a byte of a string and of a byte of a slice. *)
Definition ascii_val (c : ascii) : Z := Z.of_N (N_of_ascii c).
Definition byte_val (b : byte) : Z := Z.of_N (Byte.to_N b).

(** [len(s)] *)
Definition len (s : string) : Z := Z.of_nat (String.length s).

(** [s[i]]; panics when [i] is out of range. *)
Definition index (s : string) (i : nat) : option Z :=
  option_map ascii_val (String.get i s).

(** [s[lo:hi]]; panics unless [lo <= hi <= len(s)]. *)
Definition slice (s : string) (lo hi : nat) : option string :=
  if (lo <=? hi)%nat && (hi <=? String.length s)%nat
  then Some (substring lo (hi - lo) s)
  else None.

(** [b[lo:hi]] for a byte slice whose capacity is its length. *)
Definition slice_bytes (b : list byte) (lo hi : nat) : option (list byte) :=
  if (lo <=? hi)%nat && (hi <=? List.length b)%nat
  then Some (firstn (hi - lo) (skipn lo b))
  else None.

(* ================================================================= *)
(** ** [strconv.ParseUint], for an explicit base

    The package calls [ParseUint] with base 16 only; the base 0 form
    (base chosen by a prefix, underscores allowed) is not modelled. *)

Inductive NumError : Type :=
| ErrSyntax
| ErrRange
| ErrBase
| ErrBitSize.

(** [lower(c)]: [c | ('x' - 'X')] *)
Definition lower (c : Z) : Z := Z.lor c 32.

(** The digit a byte stands for, as the [switch] of the loop finds it. *)
Definition digit_val (c : Z) : option Z :=
  if (48 <=? c) && (c <=? 57) then Some (c - 48)
  else if (97 <=? lower c) && (lower c <=? 122) then Some (lower c - 97 + 10)
  else None.

(** The loop [for _, c := range []byte(s)] over the bytes still to be
    read, with the number [n] read so far. *)
Fixpoint ParseUint_loop (s : string) (base cutoff maxVal n : Z)
  : Z * option NumError :=
  match s with
  | EmptyString => (n, None)
  | String c rest =>
      match digit_val (ascii_val c) with
      | None => (0, Some ErrSyntax)
      | Some d =>
          if d >=? base then (0, Some ErrSyntax)
          else if n >=? cutoff then (maxVal, Some ErrRange)
          else
            let n := wrap_uint64 (n * base) in
            let n1 := wrap_uint64 (n + d) in
            if (n1 <? n) || (n1 >? maxVal) then (maxVal, Some ErrRange)
            else ParseUint_loop rest base cutoff maxVal n1
      end
  end.

Definition ParseUint (s : string) (base bitSize : Z) : Z * option NumError :=
  if (String.length s =? 0)%nat then (0, Some ErrSyntax)
  else if negb ((2 <=? base) && (base <=? 36)) then (0, Some ErrBase)
  else
    let bitSize := if bitSize =? 0 then 64 else bitSize in
    if (bitSize <? 0) || (bitSize >? 64) then (0, Some ErrBitSize)
    else
      let cutoff := max_uint64 / base + 1 in
      let maxVal := wrap_uint64 (wrap_uint64 (Z.shiftl 1 bitSize) - 1) in
      ParseUint_loop s base cutoff maxVal 0.

(* ================================================================= *)
(** ** [binary.BigEndian] *)

(** [binary.BigEndian.Uint64(b)]; panics when [len(b) < 8]. *)
Definition BigEndian_Uint64 (b : list byte) : option Z :=
  match b with
  | b0 :: b1 :: b2 :: b3 :: b4 :: b5 :: b6 :: b7 :: _ =>
      Some (Z.lor (byte_val b7)
           (Z.lor (Z.shiftl (byte_val b6) 8)
           (Z.lor (Z.shiftl (byte_val b5) 16)
           (Z.lor (Z.shiftl (byte_val b4) 24)
           (Z.lor (Z.shiftl (byte_val b3) 32)
           (Z.lor (Z.shiftl (byte_val b2) 40)
           (Z.lor (Z.shiftl (byte_val b1) 48)
                  (Z.shiftl (byte_val b0) 56))))))))
  | _ => None
  end.

(** [binary.BigEndian.Uint32(b)]; panics when [len(b) < 4]. *)
Definition BigEndian_Uint32 (b : list byte) : option Z :=
  match b with
  | b0 :: b1 :: b2 :: b3 :: _ =>
      Some (Z.lor (byte_val b3)
           (Z.lor (Z.shiftl (byte_val b2) 8)
           (Z.lor (Z.shiftl (byte_val b1) 16)
                  (Z.shiftl (byte_val b0) 24))))
  | _ => None
  end.

(* ================================================================= *)
(** ** The four entry points

    Each returns [(time.Time, error)]; the [error] is [nil] ([None]) or
    holds an [Error].  The outer [option] is the panic monad. *)

Definition Result : Type := option (Time * option Error).

Definition failure : Result := Some (zeroTime, Some parseError).

(** The marker ['@']. *)
Definition marker : Z := 64.

(** [len(s) != n || s[0] != '@'], with Go's short-circuit evaluation. *)
Definition bad_shape (s : string) (n : Z) : option bool :=
  if negb (len s =? n) then Some true
  else c <- index s 0 ;; Some (negb (c =? marker)).

(** [func ParseTai64(s string) (time.Time, error)] *)
Definition ParseTai64 (s : string) : Result :=
  bad <- bad_shape s 17 ;;
  if bad then failure
  else
    s1 <- slice s 1 (String.length s) ;;
    let '(sec, err) := ParseUint s1 16 64 in
    match err with
    | Some _ => failure
    | None =>
        if sec >? Z.shiftl 1 63 then failure
        else
          Some (EpochTime
                  (wrap_int64 (wrap_uint64 (sec - Z.shiftl 1 62))) 0,
                None)
    end.

(** [func ParseTai64n(s string) (time.Time, error)] *)
Definition ParseTai64n (s : string) : Result :=
  bad <- bad_shape s 25 ;;
  if bad then failure
  else
    s1 <- slice s 1 17 ;;
    let '(sec, err) := ParseUint s1 16 64 in
    match err with
    | Some _ => failure
    | None =>
        s2 <- slice s 17 25 ;;
        let '(nsec, err) := ParseUint s2 16 32 in
        match err with
        | Some _ => failure
        | None =>
            if sec >? Z.shiftl 1 63 then failure
            else
              Some (EpochTime
                      (wrap_int64 (wrap_uint64 (sec - Z.shiftl 1 62)))
                      (wrap_int64 nsec),
                    None)
        end
    end.

(** [func DecodeTai64(b []byte) (time.Time, error)] *)
Definition DecodeTai64 (b : list byte) : Result :=
  if negb (List.length b =? 8)%nat then failure
  else
    sec <- BigEndian_Uint64 b ;;
    if sec >? Z.shiftl 1 63 then failure
    else
      Some (EpochTime (wrap_int64 (wrap_uint64 (sec - Z.shiftl 1 62))) 0,
            None).

(** [func DecodeTai64n(b []byte) (time.Time, error)] *)
Definition DecodeTai64n (b : list byte) : Result :=
  if negb (List.length b =? 12)%nat then failure
  else
    b1 <- slice_bytes b 0 8 ;;
    sec <- BigEndian_Uint64 b1 ;;
    b2 <- slice_bytes b 8 12 ;;
    nsec <- BigEndian_Uint32 b2 ;;
    if sec >? Z.shiftl 1 63 then failure
    else
      Some (EpochTime
              (wrap_int64 (wrap_uint64 (sec - Z.shiftl 1 62)))
              (wrap_int64 nsec),
            None).

(* ================================================================= *)
(** * Vocabulary of the specification *)

(** The position of the first entry of [tbl] strictly less than [secs]. *)
Fixpoint first_below (secs : Z) (tbl : list Z) : option nat :=
  match tbl with
  | [] => None
  | l :: rest =>
      if l <? secs then Some O else option_map S (first_below secs rest)
  end.

(** The number of entries the scan visits, which is the number of times
    [offset] is decremented: up to and including the first entry
    strictly less than [secs], or the whole table. *)
Definition visited (secs : Z) (tbl : list Z) : nat :=
  match first_below secs tbl with
  | Some i => S i
  | None => List.length tbl
  end.

(** The number of entries of [tbl] that are at least [s], and of those
    in [a, b). *)
Definition count_ge (s : Z) (tbl : list Z) : nat :=
  List.length (filter (fun l => s <=? l) tbl).

Definition crossed (a b : Z) (tbl : list Z) : list Z :=
  filter (fun l => (a <=? l) && (l <? b)) tbl.

(** The oldest entry, 1972-01-01 00:00:09 in TAI seconds. *)
Definition oldest : Z := last leapSeconds 0.

(** [secs] and [nsecs] for which neither the subtraction of the offset
    nor [time.Unix] leaves the range of int64. *)
Definition fits (secs nsecs : Z) : Prop :=
  min_int64 <= secs - 10 + nsecs / 1000000000 /\
  secs - 10 + nsecs / 1000000000 + unixToInternal <= max_int64.

(** The offset of the specification: start at the number of entries
    plus 10; one decrement for each entry up to and including the first
    one strictly less than [secs]; all the way down to 10 when there is
    no such entry. *)
Definition offset_spec (secs : Z) : Z :=
  match first_below secs leapSeconds with
  | Some i => Z.of_nat (List.length leapSeconds) + 10 - (Z.of_nat i + 1)
  | None => 10
  end.

(** Hexadecimal digits and the number a string of them denotes. *)
Definition is_hex (c : ascii) : bool :=
  let v := ascii_val c in
  ((48 <=? v) && (v <=? 57)) || ((65 <=? v) && (v <=? 70))
  || ((97 <=? v) && (v <=? 102)).

Definition hex_digit (c : ascii) : Z :=
  let v := ascii_val c in
  if v <=? 57 then v - 48 else if v <=? 70 then v - 55 else v - 87.

Fixpoint all_hex (s : string) : bool :=
  match s with
  | EmptyString => true
  | String c rest => is_hex c && all_hex rest
  end.

Fixpoint hex_value_acc (s : string) (acc : Z) : Z :=
  match s with
  | EmptyString => acc
  | String c rest => hex_value_acc rest (16 * acc + hex_digit c)
  end.

Definition hex_value (s : string) : Z := hex_value_acc s 0.

(** The byte of a number below 256, and the bytes that a string of
    hexadecimal digits spells, two digits to the byte. *)
Definition byte_of_Z (z : Z) : byte :=
  match Byte.of_N (Z.to_N z) with
  | Some b => b
  | None => x00
  end.

Fixpoint hex_bytes (s : string) : list byte :=
  match s with
  | String c1 (String c2 rest) =>
      byte_of_Z (16 * hex_digit c1 + hex_digit c2) :: hex_bytes rest
  | _ => []
  end.

(** The number that bytes denote, most significant byte first. *)
Definition be_value (b : list byte) : Z :=
  fold_left (fun acc x => 256 * acc + byte_val x) b 0.

(** ASCII lower case: the letters [A] to [Z] become [a] to [z]. *)
Definition lower_ascii (c : ascii) : ascii :=
  if (65 <=? ascii_val c) && (ascii_val c <=? 90)
  then ascii_of_N (N_of_ascii c + 32)
  else c.

Fixpoint lower_string (s : string) : string :=
  match s with
  | EmptyString => EmptyString
  | String c rest => String (lower_ascii c) (lower_string rest)
  end.

(** The number of entries of [tbl] strictly before [s]. *)
Definition count_lt (s : Z) (tbl : list Z) : nat :=
  List.length (filter (fun l => l <? s) tbl).

(** What the tests of the package look at: the error, and the time as
    seconds and nanoseconds since the Unix epoch. *)
Definition observe (r : Result) : option (Z * Z * option Error) :=
  option_map (fun te => (Time_Unix (fst te), Time_Nanosecond (fst te), snd te)) r.

(* ================================================================= *)
(** * Properties *)

(* ----------------------------------------------------------------- *)
(** ** Wrap-around *)

Ltac int_unfold :=
  unfold in_int64, in_uint64, min_int64, max_int64, max_uint64,
    wrap_int, wrap_int64, wrap_uint64, wrap_uint32, wrap_int32 in *.

Lemma wrap_int64_id (z : Z) : in_int64 z -> wrap_int64 z = z.
Proof. int_unfold. intros H. rewrite Z.mod_small; lia. Qed.

Lemma wrap_int64_range (z : Z) : in_int64 (wrap_int64 z).
Proof.
  int_unfold. pose proof (Z.mod_pos_bound (z + 2 ^ 63) (2 ^ 64)). lia.
Qed.

Lemma wrap_int64_add_l (a b : Z) :
  wrap_int64 (wrap_int64 a + b) = wrap_int64 (a + b).
Proof. unfold wrap_int64. Z.to_euclidean_division_equations. lia. Qed.

Lemma wrap_int64_sub_r (a b : Z) :
  wrap_int64 (a - wrap_int64 b) = wrap_int64 (a - b).
Proof. unfold wrap_int64. Z.to_euclidean_division_equations. lia. Qed.

Lemma wrap_int32_id (z : Z) : - 2 ^ 31 <= z < 2 ^ 31 -> wrap_int32 z = z.
Proof. int_unfold. intros H. rewrite Z.mod_small; lia. Qed.

(* ----------------------------------------------------------------- *)
(** ** [time.Unix] *)

(** [time.Unix] carries whole seconds of [nsec] into [sec]: the result
    holds [sec + floor (nsec / 10^9)] (in int64) and [nsec mod 10^9]. *)
Lemma time_Unix_normal (s n : Z) :
  in_int64 n ->
  time_Unix s n =
    mkTime (wrap_int64 (s + n / 1000000000 + unixToInternal))
           (n mod 1000000000) time_Local.
Proof.
  intros Hn. unfold time_Unix, div64.
  destruct ((n <? 0) || (n >=? 1000000000)) eqn:E.
  - assert (Hq : in_int64 (Z.quot n 1000000000)).
    { int_unfold. Z.to_euclidean_division_equations. lia. }
    rewrite (wrap_int64_id (Z.quot n 1000000000)) by exact Hq.
    assert (Hm : in_int64 (Z.quot n 1000000000 * 1000000000)).
    { int_unfold. Z.to_euclidean_division_equations. lia. }
    rewrite (wrap_int64_id (_ * _)) by exact Hm.
    assert (Hr : n - Z.quot n 1000000000 * 1000000000 = Z.rem n 1000000000).
    { Z.to_euclidean_division_equations. lia. }
    rewrite Hr.
    pose proof (Z.rem_bound_abs n 1000000000 ltac:(lia)) as Hb.
    rewrite (wrap_int64_id (Z.rem _ _)) by (int_unfold; lia).
    destruct (Z.rem n 1000000000 <? 0) eqn:E2.
    + apply Z.ltb_lt in E2.
      assert (Hd : n / 1000000000 = Z.quot n 1000000000 - 1).
      { Z.to_euclidean_division_equations. lia. }
      assert (Hmod : n mod 1000000000 = Z.rem n 1000000000 + 1000000000).
      { Z.to_euclidean_division_equations. lia. }
      rewrite (wrap_int64_id (Z.rem _ _ + _)) by (int_unfold; lia).
      rewrite wrap_int32_id by lia.
      rewrite Hd, Hmod. f_equal.
      generalize (Z.quot n 1000000000) as q. intros q.
      generalize unixToInternal as u. intros u. clear.
      unfold wrap_int64. Z.to_euclidean_division_equations. lia.
    + apply Z.ltb_ge in E2.
      assert (Hd : n / 1000000000 = Z.quot n 1000000000).
      { Z.to_euclidean_division_equations. lia. }
      assert (Hmod : n mod 1000000000 = Z.rem n 1000000000).
      { Z.to_euclidean_division_equations. lia. }
      rewrite wrap_int32_id by lia.
      rewrite Hd, Hmod. f_equal.
      apply wrap_int64_add_l.
  - apply orb_false_iff in E. destruct E as [E1 E2].
    apply Z.ltb_ge in E1. rewrite Z.geb_leb in E2. apply Z.leb_gt in E2.
    rewrite Z.div_small, Z.mod_small by lia.
    rewrite wrap_int32_id by lia. f_equal. f_equal. ring.
Qed.

(* ----------------------------------------------------------------- *)
(** ** The scan of the table *)

Section Scan.

Variable secs : Z.

Lemma first_below_Some (tbl : list Z) (i : nat) :
  first_below secs tbl = Some i ->
  nth i tbl 0 < secs /\
  (i < List.length tbl)%nat /\
  forall j, (j < i)%nat -> secs <= nth j tbl 0.
Proof.
  revert i. induction tbl as [|l rest IH]; intros i; simpl.
  - discriminate.
  - destruct (Z.ltb_spec l secs) as [Hl|Hl].
    + intros [= <-]. simpl. repeat split; try lia; intros j Hj; lia.
    + destruct (first_below secs rest) as [k|]; simpl; [|discriminate].
      intros [= <-]. destruct (IH k eq_refl) as (H1 & H2 & H3).
      simpl. repeat split; [exact H1 | lia |].
      intros [|j] Hj; [exact Hl | apply H3; lia].
Qed.

Lemma first_below_None (tbl : list Z) :
  first_below secs tbl = None -> Forall (fun l => secs <= l) tbl.
Proof.
  induction tbl as [|l rest IH]; simpl; [constructor|].
  destruct (Z.ltb_spec l secs) as [Hl|Hl]; [discriminate|].
  destruct (first_below secs rest); simpl; [discriminate|].
  intros _. constructor; auto.
Qed.

Lemma visited_cons (l : Z) (rest : list Z) :
  visited secs (l :: rest) =
    if secs >? l then 1%nat else S (visited secs rest).
Proof.
  unfold visited. simpl. rewrite Z.gtb_ltb.
  destruct (l <? secs); [reflexivity|].
  destruct (first_below secs rest); reflexivity.
Qed.

Lemma visited_le (tbl : list Z) : (visited secs tbl <= List.length tbl)%nat.
Proof.
  induction tbl as [|l rest IH]; [reflexivity|].
  rewrite visited_cons. simpl. destruct (secs >? l); lia.
Qed.

Lemma visited_pos (tbl : list Z) : tbl <> [] -> (1 <= visited secs tbl)%nat.
Proof.
  destruct tbl as [|l rest]; [congruence|]. intros _.
  rewrite visited_cons. destruct (secs >? l); lia.
Qed.

(** Each visited entry costs one decrement, and none of them wraps
    around when the table fits under the starting offset. *)
Lemma EpochTime_loop_visited (tbl : list Z) (offset : Z) :
  min_int64 + Z.of_nat (List.length tbl) <= offset <= max_int64 ->
  EpochTime_loop tbl secs offset = offset - Z.of_nat (visited secs tbl).
Proof.
  revert offset. induction tbl as [|l rest IH]; intros offset Hoff.
  - unfold visited. simpl. lia.
  - rewrite visited_cons. simpl EpochTime_loop.
    simpl List.length in Hoff.
    unfold wrap_int. rewrite wrap_int64_id by (int_unfold; lia).
    destruct (secs >? l); [lia|].
    rewrite IH by lia. lia.
Qed.

Lemma count_ge_none (tbl : list Z) :
  Forall (fun l => l < secs) tbl -> count_ge secs tbl = 0%nat.
Proof.
  unfold count_ge. induction 1 as [|l rest Hl _ IH]; [reflexivity|].
  simpl. destruct (Z.leb_spec secs l); [lia | exact IH].
Qed.

(** In a table in descending order the entries that are at least [secs]
    come first, and the scan stops right after them. *)
Lemma visited_descending (tbl : list Z) :
  StronglySorted Z.gt tbl ->
  visited secs tbl = Nat.min (List.length tbl) (S (count_ge secs tbl)).
Proof.
  induction 1 as [|l rest Hs IH Hl].
  - reflexivity.
  - rewrite visited_cons. destruct (Z.gtb_spec secs l) as [Hgt|Hle].
    + rewrite count_ge_none; [simpl; lia|].
      constructor; [lia|].
      eapply Forall_impl; [|exact Hl]. simpl. intros x Hx. lia.
    + rewrite IH. unfold count_ge. simpl.
      destruct (Z.leb_spec secs l); [simpl; lia | lia].
Qed.

End Scan.

Section Crossing.

Variables a b : Z.
Hypothesis Hab : a <= b.

Lemma count_ge_crossed (tbl : list Z) :
  count_ge a tbl = (count_ge b tbl + List.length (crossed a b tbl))%nat.
Proof.
  unfold count_ge, crossed. induction tbl as [|l rest IH]; [reflexivity|].
  simpl.
  destruct (Z.leb_spec a l), (Z.leb_spec b l), (Z.ltb_spec l b);
    simpl; lia.
Qed.

End Crossing.

(** Distinct integers: a descending table has at most [b - a] entries
    in [a, b). *)
Lemma crossed_descending (tbl : list Z) :
  StronglySorted Z.gt tbl ->
  forall a b, a <= b -> Z.of_nat (List.length (crossed a b tbl)) <= b - a.
Proof.
  induction 1 as [|l rest Hs IH Hl]; intros a b Hab.
  - simpl. lia.
  - unfold crossed. simpl.
    destruct (Z.leb_spec a l) as [Hal|Hal];
      destruct (Z.ltb_spec l b) as [Hlb|Hlb]; simpl;
      try (apply IH; exact Hab).
    assert (E : filter (fun x => (a <=? x) && (x <? b)) rest =
                crossed a l rest).
    { unfold crossed. apply filter_ext_in. intros x Hx.
      rewrite Forall_forall in Hl. specialize (Hl x Hx).
      destruct (Z.ltb_spec x b), (Z.ltb_spec x l); try lia; reflexivity. }
    rewrite E. specialize (IH a l Hal). lia.
Qed.

(* ----------------------------------------------------------------- *)
(** ** The table *)

Lemma leapSeconds_length : List.length leapSeconds = 26%nat.
Proof. reflexivity. Qed.

Lemma leapSeconds_descending : StronglySorted Z.gt leapSeconds.
Proof. unfold leapSeconds. repeat constructor. Qed.

Lemma leapSeconds_oldest : leapSeconds = removelast leapSeconds ++ [oldest].
Proof. reflexivity. Qed.

(* ----------------------------------------------------------------- *)
(** ** The offset *)

Lemma EpochTime_offset_visited (secs : Z) :
  EpochTime_offset secs =
    Z.of_nat (List.length leapSeconds) + 10
    - Z.of_nat (visited secs leapSeconds).
Proof.
  unfold EpochTime_offset.
  rewrite leapSeconds_length. unfold wrap_int.
  rewrite wrap_int64_id by (int_unfold; lia).
  apply EpochTime_loop_visited. rewrite leapSeconds_length. int_unfold. lia.
Qed.

Lemma EpochTime_offset_range (secs : Z) : 10 <= EpochTime_offset secs <= 35.
Proof.
  rewrite EpochTime_offset_visited.
  pose proof (visited_le secs leapSeconds) as Hle.
  pose proof (visited_pos secs leapSeconds ltac:(discriminate)) as Hpos.
  rewrite leapSeconds_length in *. lia.
Qed.

(** The offset in closed form: 10 plus the number of leap seconds of the
    table, its oldest entry apart, that lie strictly before [secs]. *)
Lemma EpochTime_offset_count (secs : Z) :
  EpochTime_offset secs =
    35 - Z.of_nat (count_ge secs (removelast leapSeconds)).
Proof.
  rewrite EpochTime_offset_visited, visited_descending
    by exact leapSeconds_descending.
  rewrite leapSeconds_length.
  assert (E : count_ge secs leapSeconds =
              (count_ge secs (removelast leapSeconds)
               + if (secs <=? oldest)%Z then 1 else 0)%nat).
  { unfold count_ge. rewrite leapSeconds_oldest at 1.
    rewrite filter_app, length_app. f_equal.
    generalize oldest as x. intros x. simpl.
    destruct (secs <=? x); reflexivity. }
  assert (B : (count_ge secs (removelast leapSeconds) <= 25)%nat).
  { unfold count_ge.
    etransitivity; [apply filter_length_le | reflexivity]. }
  rewrite E. destruct (Z.leb_spec secs oldest) as [Ho|Ho].
  - assert (F : count_ge secs (removelast leapSeconds) = 25%nat).
    { unfold count_ge. rewrite (filter_ext_in _ (fun _ => true)).
      - reflexivity.
      - intros x Hx. apply Z.leb_le.
        assert (Hxo : oldest < x).
        { revert x Hx. apply Forall_forall. repeat constructor. }
        lia. }
    rewrite F. reflexivity.
  - lia.
Qed.

(** Seconds since the Unix epoch of the result. *)
Lemma Time_Unix_EpochTime (secs nsecs : Z) :
  in_int64 nsecs ->
  Time_Unix (EpochTime secs nsecs) =
    wrap_int64 (secs - EpochTime_offset secs + nsecs / 1000000000).
Proof.
  intros Hn. unfold EpochTime. rewrite time_Unix_normal by exact Hn.
  unfold Time_Unix, internalToUnix. simpl sec.
  pose proof (EpochTime_offset_range secs) as Ho.
  rewrite (wrap_int64_id (EpochTime_offset secs)) by (int_unfold; lia).
  generalize (EpochTime_offset secs) as o.
  generalize (nsecs / 1000000000) as q.
  generalize unixToInternal as u. intros u q o.
  unfold wrap_int64. Z.to_euclidean_division_equations. lia.
Qed.

Lemma Time_Nanosecond_EpochTime (secs nsecs : Z) :
  in_int64 nsecs ->
  Time_Nanosecond (EpochTime secs nsecs) = nsecs mod 1000000000.
Proof.
  intros Hn. unfold EpochTime. rewrite time_Unix_normal by exact Hn.
  reflexivity.
Qed.

Lemma EpochTime_offset_spec (secs : Z) :
  EpochTime_offset secs = offset_spec secs.
Proof.
  rewrite EpochTime_offset_visited. unfold offset_spec, visited.
  destruct (first_below secs leapSeconds); [lia|].
  rewrite leapSeconds_length. reflexivity.
Qed.

Lemma EpochTime_offset_early (secs : Z) :
  secs <= 78796810 -> EpochTime_offset secs = 10.
Proof.
  intros Hs. rewrite EpochTime_offset_count.
  assert (F : count_ge secs (removelast leapSeconds) = 25%nat).
  { unfold count_ge. rewrite (filter_ext_in _ (fun _ => true)).
    - reflexivity.
    - intros x Hx. apply Z.leb_le.
      assert (Hxo : 78796810 <= x).
      { revert x Hx. apply Forall_forall.
        repeat constructor; discriminate. }
      lia. }
  rewrite F. reflexivity.
Qed.

Lemma quot_bounds (n : Z) :
  in_int64 n -> -9223372037 <= n / 1000000000 <= 9223372036.
Proof. int_unfold. intros H. Z.to_euclidean_division_equations. lia. Qed.

(** Where everything fits, the result holds the exact sums. *)
Lemma EpochTime_fits (secs nsecs : Z) :
  in_int64 secs -> in_int64 nsecs -> fits secs nsecs ->
  EpochTime secs nsecs =
    mkTime (secs - EpochTime_offset secs + nsecs / 1000000000
            + unixToInternal)
           (nsecs mod 1000000000) time_Local.
Proof.
  intros Hs Hn [Hlo Hhi]. unfold EpochTime.
  rewrite time_Unix_normal by exact Hn. f_equal.
  pose proof (EpochTime_offset_range secs) as Ho.
  pose proof (quot_bounds nsecs Hn) as Hq.
  assert (Hcase : EpochTime_offset secs = 10 \/ 78796810 < secs).
  { destruct (Z.le_gt_cases secs 78796810) as [H|H];
      [left; apply EpochTime_offset_early; exact H | right; lia]. }
  rewrite (wrap_int64_id (EpochTime_offset secs)) by (int_unfold; lia).
  rewrite <- Z.add_assoc, wrap_int64_add_l.
  rewrite wrap_int64_id; [ring|].
  revert Hlo Hhi. unfold unixToInternal. int_unfold.
  change ((1969 * 365 + 1969 / 4 - 1969 / 100 + 1969 / 400) * 86400)
    with 62135596800.
  lia.
Qed.

(** The number of table entries crossed between [a] and [b], the
    oldest apart, is the difference of the offsets. *)
Lemma EpochTime_offset_crossed (a b : Z) :
  a <= b ->
  EpochTime_offset b =
    EpochTime_offset a
    + Z.of_nat (List.length (crossed a b (removelast leapSeconds))).
Proof.
  intros Hab. rewrite !EpochTime_offset_count.
  rewrite (count_ge_crossed a b Hab).
  assert (B : (count_ge b (removelast leapSeconds)
               + List.length (crossed a b (removelast leapSeconds)) <= 25)%nat).
  { rewrite <- (count_ge_crossed a b Hab). unfold count_ge.
    etransitivity; [apply filter_length_le | reflexivity]. }
  lia.
Qed.

Lemma removelast_descending : StronglySorted Z.gt (removelast leapSeconds).
Proof. unfold leapSeconds. simpl removelast. repeat constructor. Qed.

Lemma crossed_split (a b : Z) :
  crossed a b leapSeconds =
    crossed a b (removelast leapSeconds) ++ crossed a b [oldest].
Proof.
  unfold crossed. rewrite leapSeconds_oldest at 1. apply filter_app.
Qed.

(* ================================================================= *)
(** * The leap-second converter *)

(** Where neither [secs - offset] nor the seconds that [time.Unix]
    stores leave the range of int64, the result holds the exact sums. *)
Lemma EpochTime_exact (secs nsecs : Z) :
  in_int64 nsecs ->
  min_int64 <= secs - EpochTime_offset secs + nsecs / 1000000000 ->
  secs - EpochTime_offset secs + nsecs / 1000000000 + unixToInternal
    <= max_int64 ->
  EpochTime secs nsecs =
    mkTime (secs - EpochTime_offset secs + nsecs / 1000000000
            + unixToInternal)
           (nsecs mod 1000000000) time_Local.
Proof.
  intros Hn Hlo Hhi. unfold EpochTime.
  rewrite time_Unix_normal by exact Hn. f_equal.
  pose proof (EpochTime_offset_range secs) as Ho.
  rewrite (wrap_int64_id (EpochTime_offset secs)) by (int_unfold; lia).
  rewrite <- Z.add_assoc, wrap_int64_add_l.
  rewrite wrap_int64_id; [ring|].
  revert Hlo Hhi. unfold unixToInternal. int_unfold.
  change ((1969 * 365 + 1969 / 4 - 1969 / 100 + 1969 / 400) * 86400)
    with 62135596800.
  lia.
Qed.

(** C1, as stated, fails where [secs - offset] wraps around: for the
    smallest int64 the offset is 10 and the result does not lie
    [secs - 10] seconds from the Unix epoch, before it, but
    [2^63 - 10] seconds after it. *)
Lemma EpochTime_scan_counterexample :
  in_int64 min_int64 /\ in_int64 0 /\
  EpochTime_offset min_int64 = 10 /\
  Time_Unix (EpochTime min_int64 0) = 9223372036854775798 /\
  Time_Nanosecond (EpochTime min_int64 0) = 0 /\
  Time_Unix (EpochTime min_int64 0)
    <> min_int64 - EpochTime_offset min_int64.
Proof.
  vm_compute. repeat split; try reflexivity; discriminate.
Qed.

(** C1, amended.  For all int64 [secs] and [nsecs], the offset
    [EpochTime] ends with is the one of the specification: it starts at
    the number of table entries plus 10, loses 1 for every entry
    visited in table order, the scan stopping at the first entry
    strictly less than [secs], and is 10, its minimum, when no entry
    qualifies.  The result is [time.Unix] of the int64 difference
    [secs - offset] and of [nsecs].  Whenever
    [secs - offset + floor (nsecs / 10^9)] is at least [-2^63] and,
    with the 62135596800 seconds that [time.Time] adds, at most
    [2^63 - 1], the result is the instant [secs - offset] seconds plus
    [nsecs] nanoseconds after the Unix epoch. *)
Theorem EpochTime_scan (secs nsecs : Z) :
  in_int64 secs -> in_int64 nsecs ->
  EpochTime_offset secs = offset_spec secs /\
  10 <= offset_spec secs /\
  (first_below secs leapSeconds = None -> offset_spec secs = 10) /\
  EpochTime secs nsecs =
    time_Unix (wrap_int64 (secs - offset_spec secs)) nsecs /\
  (min_int64 <= secs - offset_spec secs + nsecs / 1000000000 ->
   secs - offset_spec secs + nsecs / 1000000000 + unixToInternal
     <= max_int64 ->
   EpochTime secs nsecs =
     mkTime (secs - offset_spec secs + nsecs / 1000000000
             + unixToInternal)
            (nsecs mod 1000000000) time_Local /\
   Time_Unix (EpochTime secs nsecs) =
     secs - offset_spec secs + nsecs / 1000000000 /\
   Time_Nanosecond (EpochTime secs nsecs) = nsecs mod 1000000000 /\
   Time_Unix (EpochTime secs nsecs) * 1000000000
   + Time_Nanosecond (EpochTime secs nsecs)
   = (secs - offset_spec secs) * 1000000000 + nsecs).
Proof.
  intros Hs Hn.
  pose proof (EpochTime_offset_spec secs) as E.
  pose proof (EpochTime_offset_range secs) as R.
  split; [exact E|]. split; [lia|].
  split; [unfold offset_spec; intros ->; reflexivity|].
  split.
  - unfold EpochTime. rewrite E.
    rewrite (wrap_int64_id (offset_spec secs)) by (int_unfold; lia).
    reflexivity.
  - rewrite <- E. intros Hlo Hhi.
    pose proof (EpochTime_exact secs nsecs Hn Hlo Hhi) as X.
    assert (U : Time_Unix (EpochTime secs nsecs) =
                secs - EpochTime_offset secs + nsecs / 1000000000).
    { rewrite X. unfold Time_Unix, internalToUnix. cbn [sec].
      match goal with
      | |- wrap_int64 (?x + unixToInternal + - unixToInternal) = _ =>
          replace (x + unixToInternal + - unixToInternal) with x by ring
      end.
      apply wrap_int64_id. revert Hlo Hhi. unfold unixToInternal.
      int_unfold.
      change ((1969 * 365 + 1969 / 4 - 1969 / 100 + 1969 / 400) * 86400)
        with 62135596800.
      lia. }
    assert (N : Time_Nanosecond (EpochTime secs nsecs)
                = nsecs mod 1000000000)
      by (apply Time_Nanosecond_EpochTime; exact Hn).
    split; [exact X|]. split; [exact U|]. split; [exact N|].
    rewrite U, N.
    pose proof (Z.div_mod nsecs 1000000000 ltac:(lia)). lia.
Qed.

Lemma EpochTime_scan_witness :
  in_int64 1000000000 /\ in_int64 1500000000 /\
  Time_Unix (EpochTime 1000000000 1500000000) * 1000000000
  + Time_Nanosecond (EpochTime 1000000000 1500000000)
  = (1000000000 - offset_spec 1000000000) * 1000000000 + 1500000000.
Proof.
  assert (Hs : in_int64 1000000000) by (int_unfold; lia).
  assert (Hn : in_int64 1500000000) by (int_unfold; lia).
  refine (conj Hs (conj Hn _)).
  apply (proj2 (proj2 (proj2 (proj2
    (EpochTime_scan 1000000000 1500000000 Hs Hn)))));
    vm_compute; discriminate.
Defined.

(** C7.  [EpochTime] is total on int64 arguments: the scan visits at
    least one and at most all of the entries of the table, every visited
    position lies inside the table, the offset loses 1 per visited entry
    and so stays between 10 and the table length plus 9, and the result
    is a well-formed [time.Time]. *)
Theorem EpochTime_total (secs nsecs : Z) :
  in_int64 secs -> in_int64 nsecs ->
  let d := visited secs leapSeconds in
  (1 <= d <= List.length leapSeconds)%nat /\
  (forall i, first_below secs leapSeconds = Some i ->
             (i < List.length leapSeconds)%nat) /\
  EpochTime_offset secs = Z.of_nat (List.length leapSeconds) + 10 - Z.of_nat d /\
  10 <= EpochTime_offset secs <= Z.of_nat (List.length leapSeconds) + 9 /\
  exists t : Time,
    EpochTime secs nsecs = t /\
    in_int64 (sec t) /\ 0 <= nsec t < 1000000000 /\ loc t = time_Local.
Proof.
  intros Hs Hn d. subst d.
  pose proof (visited_le secs leapSeconds) as Hle.
  pose proof (visited_pos secs leapSeconds ltac:(discriminate)) as Hpos.
  split; [lia|]. split.
  { intros i Hi. apply (first_below_Some secs leapSeconds i Hi). }
  split; [apply EpochTime_offset_visited|]. split.
  { pose proof (EpochTime_offset_range secs). rewrite leapSeconds_length. lia. }
  eexists. split; [reflexivity|].
  unfold EpochTime. rewrite time_Unix_normal by exact Hn. simpl.
  split; [apply wrap_int64_range|]. split; [|reflexivity].
  apply Z.mod_pos_bound. lia.
Qed.

Lemma EpochTime_total_witness :
  in_int64 (- 2 ^ 63) /\ in_int64 (2 ^ 63 - 1) /\
  10 <= EpochTime_offset (- 2 ^ 63) <= Z.of_nat (List.length leapSeconds) + 9.
Proof.
  assert (Hs : in_int64 (- 2 ^ 63)) by (vm_compute; split; discriminate).
  assert (Hn : in_int64 (2 ^ 63 - 1)) by (vm_compute; split; discriminate).
  refine (conj Hs (conj Hn _)).
  exact (proj1 (proj2 (proj2 (proj2
    (EpochTime_total (- 2 ^ 63) (2 ^ 63 - 1) Hs Hn))))).
Defined.

(** C8.  The leap-second table is a constant of 26 entries, each a
    positive int64, in strictly descending order (every entry is greater
    than all the entries after it); taking away the TAI-UTC difference
    in force just before it, every entry falls on a UTC midnight.  No
    function of the package assigns to the table: they are functions of
    the constant. *)
Theorem leapSeconds_table :
  List.length leapSeconds = 26%nat /\
  StronglySorted Z.gt leapSeconds /\
  (forall i j, (i < j < List.length leapSeconds)%nat ->
               nth j leapSeconds 0 < nth i leapSeconds 0) /\
  Forall (fun l => 0 < l /\ in_int64 l) leapSeconds /\
  forallb (fun kl => (snd kl - 9 - Z.of_nat (fst kl)) mod 86400 =? 0)
          (combine (seq 0 26) (rev leapSeconds)) = true.
Proof.
  split; [reflexivity|]. split; [exact leapSeconds_descending|].
  split.
  - intros i j [Hij Hj].
    assert (G : forall tbl, StronglySorted Z.gt tbl ->
              forall i j, (i < j < List.length tbl)%nat ->
                          nth j tbl 0 < nth i tbl 0).
    { clear. induction 1 as [|l rest Hs IH Hl]; intros i j [Hij Hj].
      - simpl in Hj. lia.
      - destruct j as [|j]; [lia|]. destruct i as [|i].
        + simpl. rewrite Forall_forall in Hl.
          assert (In (nth j rest 0) rest) by (apply nth_In; simpl in Hj; lia).
          specialize (Hl _ H). lia.
        + simpl. apply IH. simpl in Hj. lia. }
    apply G; [exact leapSeconds_descending | lia].
  - split; [|vm_compute; reflexivity].
    unfold leapSeconds. repeat constructor; vm_compute; congruence.
Qed.

Lemma leapSeconds_table_witness :
  nth 25 leapSeconds 0 < nth 0 leapSeconds 0.
Proof.
  apply (proj1 (proj2 (proj2 leapSeconds_table)) 0%nat 25%nat).
  rewrite leapSeconds_length. lia.
Defined.

(** C5.  [EpochTime(2^62 - 10, 0)] is not the Unix epoch: it lies
    [2^62 - 45] seconds after it. *)
Lemma EpochTime_bias_counterexample :
  Time_Unix (EpochTime (2 ^ 62 - 10) 0) = 2 ^ 62 - 45 /\
  EpochTime (2 ^ 62 - 10) 0 <> time_Unix 0 0 /\
  Time_Equal (EpochTime (2 ^ 62 - 10) 0) (time_Unix 0 0) = false.
Proof.
  vm_compute. repeat split; discriminate.
Qed.

(** C5, amended.  [EpochTime(10, 0)] is the Unix epoch,
    1970-01-01T00:00:00Z: 10 is what the entry points pass for the
    TAI64 label [2^62 + 10], and the label ["@400000000000000A"] parses
    to that instant. *)
Theorem EpochTime_unix_epoch :
  EpochTime 10 0 = time_Unix 0 0 /\
  Time_Unix (EpochTime 10 0) = 0 /\
  Time_Nanosecond (EpochTime 10 0) = 0 /\
  wrap_int64 (wrap_uint64 (2 ^ 62 + 10 - Z.shiftl 1 62)) = 10 /\
  ParseTai64 "@400000000000000A" = Some (time_Unix 0 0, None).
Proof. vm_compute. repeat split; reflexivity. Qed.

(** Seconds since the Unix epoch, where nothing wraps around. *)
Lemma Time_Unix_EpochTime_exact (secs nsecs : Z) :
  in_int64 secs -> in_int64 nsecs ->
  min_int64 <= secs - 10 + nsecs / 1000000000 ->
  secs - 10 + nsecs / 1000000000 <= max_int64 ->
  Time_Unix (EpochTime secs nsecs) =
    secs - EpochTime_offset secs + nsecs / 1000000000.
Proof.
  intros Hs Hn Hlo Hhi. rewrite Time_Unix_EpochTime by exact Hn.
  apply wrap_int64_id.
  pose proof (EpochTime_offset_range secs) as Ho.
  pose proof (quot_bounds nsecs Hn) as Hq.
  assert (Hcase : EpochTime_offset secs = 10 \/ 78796810 < secs).
  { destruct (Z.le_gt_cases secs 78796810) as [H|H];
      [left; apply EpochTime_offset_early; exact H | right; lia]. }
  revert Hlo Hhi. int_unfold. lia.
Qed.

Lemma fits_no_wrap (secs nsecs : Z) :
  fits secs nsecs ->
  min_int64 <= secs - 10 + nsecs / 1000000000 /\
  secs - 10 + nsecs / 1000000000 <= max_int64.
Proof.
  unfold fits, unixToInternal.
  change ((1969 * 365 + 1969 / 4 - 1969 / 100 + 1969 / 400) * 86400)
    with 62135596800.
  lia.
Qed.

(** C9, as stated, fails where [secs - offset] wraps around: the
    smallest int64 is sent far after the Unix epoch, 0 before it. *)
Lemma EpochTime_monotone_counterexample :
  in_int64 min_int64 /\ in_int64 0 /\ min_int64 <= 0 /\
  Time_Unix (EpochTime min_int64 0) = 9223372036854775798 /\
  Time_Unix (EpochTime 0 0) = -10 /\
  ~ Time_Unix (EpochTime min_int64 0) <= Time_Unix (EpochTime 0 0).
Proof.
  vm_compute. repeat split; try discriminate. intros H. apply H. reflexivity.
Qed.

(** C9, amended.  For int64 [a <= b] and [nsecs] such that neither
    [a - 10 + floor (nsecs / 10^9)] nor [b - 10 + floor (nsecs / 10^9)]
    leaves the range of int64 (all [a >= -2^63 + 10] when
    [0 <= nsecs < 10^9]), the Unix seconds of [EpochTime(a, nsecs)] are
    at most those of [EpochTime(b, nsecs)], also across leap seconds:
    the entries of the table are distinct integers, consecutive ones
    more than one second apart, and the two TAI seconds [l] and [l + 1]
    at an entry [l] other than the oldest give the same Unix second. *)
Theorem EpochTime_monotone (a b nsecs : Z) :
  in_int64 a -> in_int64 b -> in_int64 nsecs ->
  a <= b ->
  min_int64 <= a - 10 + nsecs / 1000000000 ->
  b - 10 + nsecs / 1000000000 <= max_int64 ->
  Time_Unix (EpochTime a nsecs) <= Time_Unix (EpochTime b nsecs) /\
  (forall i, (S i < List.length leapSeconds)%nat ->
             1 < nth i leapSeconds 0 - nth (S i) leapSeconds 0) /\
  (forall l, In l (removelast leapSeconds) ->
             Time_Unix (EpochTime l nsecs) =
             Time_Unix (EpochTime (l + 1) nsecs)).
Proof.
  intros Ha Hb Hn Hab Hlo Hhi. split; [|split].
  - rewrite !Time_Unix_EpochTime_exact by (assumption || lia).
    rewrite (EpochTime_offset_crossed a b Hab).
    pose proof (crossed_descending _ removelast_descending a b Hab). lia.
  - intros i Hi. rewrite leapSeconds_length in Hi.
    do 25 (destruct i as [|i]; [vm_compute; reflexivity|]). lia.
  - intros l Hl. rewrite !Time_Unix_EpochTime by exact Hn.
    assert (E : EpochTime_offset (l + 1) = EpochTime_offset l + 1).
    { revert l Hl. apply Forall_forall.
      repeat constructor; vm_compute; reflexivity. }
    rewrite E. f_equal. ring.
Qed.

Lemma EpochTime_monotone_witness :
  Time_Unix (EpochTime 78796810 999999999)
  <= Time_Unix (EpochTime 1341100835 999999999).
Proof.
  apply (EpochTime_monotone 78796810 1341100835 999999999);
    vm_compute; try split; discriminate.
Defined.

(** C4, as stated, fails in two places.  Across the leap second at
    78796810 the results come closer by one second instead of moving
    apart: TAI seconds 78796810 and 78796811 give the same Unix second.
    And with no entry of the table in between, the gap is lost where
    [secs - offset] wraps around, and the order where the seconds
    [time.Unix] stores do. *)
Lemma EpochTime_gap_counterexample :
  (78796810 < 78796811 /\
   crossed 78796810 78796811 leapSeconds = [78796810] /\
   Time_Unix (EpochTime 78796811 0) - Time_Unix (EpochTime 78796810 0) = 0 /\
   ~ Time_Unix (EpochTime 78796811 0) - Time_Unix (EpochTime 78796810 0)
     = (78796811 - 78796810) + 1) /\
  (min_int64 < 0 /\
   crossed min_int64 0 leapSeconds = [] /\
   ~ Time_Unix (EpochTime 0 0) - Time_Unix (EpochTime min_int64 0)
     = 0 - min_int64) /\
  (2000000000 < max_int64 /\
   crossed 2000000000 max_int64 leapSeconds = [] /\
   Time_Before (EpochTime 2000000000 0) (EpochTime max_int64 0) = false).
Proof.
  vm_compute. repeat split; try reflexivity; try discriminate.
Qed.

(** C4, amended.  For int64 [a < b] and [n] inside the range where
    nothing wraps around ([fits]): with no entry of the table in
    [a, b), [EpochTime(a, n)] is before [EpochTime(b, n)] and the
    results are exactly [b - a] seconds apart; with exactly one entry
    of the table, the oldest not counted, in [a, b), the results are
    [b - a - 1] seconds apart, that is the gap decreases by exactly 1.
    In general the results are [b - a] seconds apart less one second
    for each entry in [a, b), the oldest not counted. *)
Theorem EpochTime_gap (a b n : Z) :
  in_int64 a -> in_int64 b -> in_int64 n ->
  a < b -> fits a n -> fits b n ->
  (crossed a b leapSeconds = [] ->
   Time_Before (EpochTime a n) (EpochTime b n) = true /\
   Time_Unix (EpochTime b n) - Time_Unix (EpochTime a n) = b - a /\
   Time_Nanosecond (EpochTime b n) = Time_Nanosecond (EpochTime a n)) /\
  (forall l, crossed a b (removelast leapSeconds) = [l] ->
   Time_Unix (EpochTime b n) - Time_Unix (EpochTime a n) = b - a - 1) /\
  Time_Unix (EpochTime b n) - Time_Unix (EpochTime a n)
  = b - a - Z.of_nat (List.length (crossed a b (removelast leapSeconds))).
Proof.
  intros Ha Hb Hn Hab Hfa Hfb.
  pose proof (fits_no_wrap a n Hfa) as [Hla Hha].
  pose proof (fits_no_wrap b n Hfb) as [Hlb Hhb].
  pose proof (EpochTime_offset_crossed a b ltac:(lia)) as Hoff.
  pose proof (crossed_split a b) as Hsplit.
  assert (G : Time_Unix (EpochTime b n) - Time_Unix (EpochTime a n)
              = b - a - Z.of_nat (List.length
                                    (crossed a b (removelast leapSeconds)))).
  { rewrite !Time_Unix_EpochTime_exact by assumption. lia. }
  split; [|split; [|exact G]].
  - intros Hnone. rewrite Hnone in Hsplit.
    symmetry in Hsplit. apply app_eq_nil in Hsplit. destruct Hsplit as [H0 _].
    rewrite H0 in Hoff, G. simpl in Hoff, G.
    split; [|split].
    + rewrite (EpochTime_fits a n Ha Hn Hfa), (EpochTime_fits b n Hb Hn Hfb).
      unfold Time_Before. simpl sec. apply orb_true_iff. left.
      apply Z.ltb_lt. lia.
    + lia.
    + rewrite !Time_Nanosecond_EpochTime by exact Hn. reflexivity.
  - intros l Hone. rewrite Hone in G. simpl in G. lia.
Qed.

Lemma EpochTime_gap_witness :
  (Time_Before (EpochTime 78796811 5) (EpochTime 94694411 5) = true /\
   Time_Unix (EpochTime 94694411 5) - Time_Unix (EpochTime 78796811 5)
     = 94694411 - 78796811) /\
  Time_Unix (EpochTime 78796811 5) - Time_Unix (EpochTime 0 5)
    = 78796811 - 0 - 1.
Proof.
  assert (F : forall s, 0 <= s <= 100000000 -> fits s 5).
  { intros s Hs. unfold fits. change (5 / 1000000000) with 0.
    change unixToInternal with 62135596800. int_unfold. lia. }
  assert (I : forall s, 0 <= s <= 100000000 -> in_int64 s)
    by (intros s Hs; int_unfold; lia).
  split.
  - pose proof (proj1 (EpochTime_gap 78796811 94694411 5
      (I 78796811 ltac:(lia)) (I 94694411 ltac:(lia)) (I 5 ltac:(lia))
      ltac:(lia) (F 78796811 ltac:(lia)) (F 94694411 ltac:(lia)))
      eq_refl) as H.
    split; apply H.
  - exact (proj1 (proj2 (EpochTime_gap 0 78796811 5
      (I 0 ltac:(lia)) (I 78796811 ltac:(lia)) (I 5 ltac:(lia))
      ltac:(lia) (F 0 ltac:(lia)) (F 78796811 ltac:(lia))))
      78796810 eq_refl).
Defined.

(* ================================================================= *)
(** * The codec *)

Lemma digit_val_hex (c : ascii) :
  match digit_val (ascii_val c) with
  | Some d => if d >=? 16 then None else Some d
  | None => None
  end = if is_hex c then Some (hex_digit c) else None.
Proof.
  destruct c as [b0 b1 b2 b3 b4 b5 b6 b7].
  destruct b0, b1, b2, b3, b4, b5, b6, b7; vm_compute; reflexivity.
Qed.

Lemma hex_digit_range (c : ascii) : is_hex c = true -> 0 <= hex_digit c < 16.
Proof.
  unfold is_hex, hex_digit. cbv zeta. generalize (ascii_val c) as v. intros v.
  destruct (Z.leb_spec v 57), (Z.leb_spec v 70),
    (Z.leb_spec 48 v), (Z.leb_spec 65 v), (Z.leb_spec 97 v),
    (Z.leb_spec v 102); simpl; intros Hv; try discriminate; lia.
Qed.

Lemma hex_value_acc_ge (s : string) :
  all_hex s = true -> forall n, 0 <= n -> n <= hex_value_acc s n.
Proof.
  induction s as [|c rest IH]; cbn [all_hex hex_value_acc];
    intros H n Hn; [lia|].
  apply andb_true_iff in H. destruct H as [Hc Hr].
  pose proof (hex_digit_range c Hc).
  specialize (IH Hr (16 * n + hex_digit c) ltac:(lia)). lia.
Qed.

Lemma hex_value_acc_lt (s : string) :
  all_hex s = true -> forall n, 0 <= n ->
  hex_value_acc s n < (n + 1) * 16 ^ Z.of_nat (String.length s).
Proof.
  induction s as [|c rest IH]; intros H n Hn.
  - simpl. lia.
  - cbn [all_hex] in H. apply andb_true_iff in H. destruct H as [Hc Hr].
    pose proof (hex_digit_range c Hc).
    specialize (IH Hr (16 * n + hex_digit c) ltac:(lia)).
    cbn [hex_value_acc String.length].
    rewrite Nat2Z.inj_succ, Z.pow_succ_r by lia.
    assert (0 < 16 ^ Z.of_nat (String.length rest)) by (apply Z.pow_pos_nonneg; lia).
    nia.
Qed.

(** [ParseUint] on hexadecimal digits: no digit is refused, and nothing
    overflows as long as the number read fits under [maxVal]. *)
Lemma ParseUint_loop_hex (s : string) (maxVal : Z) :
  all_hex s = true -> maxVal <= max_uint64 ->
  forall n, 0 <= n -> hex_value_acc s n <= maxVal ->
  ParseUint_loop s 16 (max_uint64 / 16 + 1) maxVal n
    = (hex_value_acc s n, None).
Proof.
  intros H Hmax. induction s as [|c rest IH]; intros n Hn Hv; [reflexivity|].
  cbn [all_hex] in H. apply andb_true_iff in H. destruct H as [Hc Hr].
  pose proof (hex_digit_range c Hc) as Hd.
  pose proof (hex_value_acc_ge rest Hr (16 * n + hex_digit c) ltac:(lia)) as Hge.
  cbn [hex_value_acc] in Hv. cbn [ParseUint_loop].
  pose proof (digit_val_hex c) as E. rewrite Hc in E.
  destruct (digit_val (ascii_val c)) as [d|]; [|discriminate].
  destruct (d >=? 16); [discriminate|]. injection E as ->.
  change (max_uint64 / 16 + 1) with 1152921504606846976.
  unfold max_uint64 in Hmax.
  destruct (Z.geb_spec n 1152921504606846976) as [Hc1|Hc1]; [lia|].
  unfold wrap_uint64.
  rewrite (Z.mod_small (n * 16)) by lia.
  rewrite (Z.mod_small (n * 16 + hex_digit c)) by lia.
  destruct (Z.ltb_spec (n * 16 + hex_digit c) (n * 16)); [lia|].
  destruct (Z.gtb_spec (n * 16 + hex_digit c) maxVal); [lia|].
  simpl orb. cbv iota.
  replace (n * 16 + hex_digit c) with (16 * n + hex_digit c) by ring.
  apply (IH Hr); [lia | exact Hv].
Qed.

Lemma ParseUint_loop_not_hex (s : string) (cutoff maxVal : Z) :
  all_hex s = false ->
  forall n, snd (ParseUint_loop s 16 cutoff maxVal n) <> None.
Proof.
  induction s as [|c rest IH]; intros H n; [discriminate|].
  cbn [all_hex] in H. cbn [ParseUint_loop].
  pose proof (digit_val_hex c) as E.
  destruct (digit_val (ascii_val c)) as [d|]; [|simpl; discriminate].
  destruct (d >=? 16); [simpl; discriminate|].
  destruct (n >=? cutoff); [simpl; discriminate|].
  match goal with |- context [if ?c then _ else _] => destruct c end;
    [simpl; discriminate|].
  destruct (is_hex c); [|discriminate]. simpl in H. apply IH. exact H.
Qed.

(** [ParseUint(s, 16, 64)] on 16 bytes and [ParseUint(s, 16, 32)] on 8. *)
Lemma ParseUint_hex64 (s : string) :
  String.length s = 16%nat -> all_hex s = true ->
  ParseUint s 16 64 = (hex_value s, None) /\ 0 <= hex_value s <= max_uint64.
Proof.
  intros Hl Hh. unfold hex_value.
  pose proof (hex_value_acc_lt s Hh 0 ltac:(lia)) as Hlt.
  pose proof (hex_value_acc_ge s Hh 0 ltac:(lia)) as Hge.
  rewrite Hl in Hlt. change ((0 + 1) * 16 ^ Z.of_nat 16) with (2 ^ 64) in Hlt.
  split; [|unfold max_uint64; lia].
  unfold ParseUint. rewrite Hl.
  change (ParseUint_loop s 16 (max_uint64 / 16 + 1) max_uint64 0
          = (hex_value_acc s 0, None)).
  apply ParseUint_loop_hex; try assumption; unfold max_uint64; lia.
Qed.

Lemma ParseUint_hex32 (s : string) :
  String.length s = 8%nat -> all_hex s = true ->
  ParseUint s 16 32 = (hex_value s, None) /\ 0 <= hex_value s < 2 ^ 32.
Proof.
  intros Hl Hh. unfold hex_value.
  pose proof (hex_value_acc_lt s Hh 0 ltac:(lia)) as Hlt.
  pose proof (hex_value_acc_ge s Hh 0 ltac:(lia)) as Hge.
  rewrite Hl in Hlt. change ((0 + 1) * 16 ^ Z.of_nat 8) with (2 ^ 32) in Hlt.
  split; [|lia].
  unfold ParseUint. rewrite Hl.
  change (ParseUint_loop s 16 (max_uint64 / 16 + 1) 4294967295 0
          = (hex_value_acc s 0, None)).
  apply ParseUint_loop_hex; try assumption; unfold max_uint64; lia.
Qed.

Lemma ParseUint_not_hex (s : string) (bitSize : Z) :
  all_hex s = false -> snd (ParseUint s 16 bitSize) <> None.
Proof.
  intros H. unfold ParseUint.
  destruct (String.length s =? 0)%nat; [simpl; discriminate|].
  simpl negb. cbv iota.
  match goal with |- context [if ?c then _ else _] => destruct c end;
    [simpl; discriminate|].
  apply ParseUint_loop_not_hex. exact H.
Qed.

(* ----------------------------------------------------------------- *)
(** ** Strings and byte slices *)

Lemma ascii_val_marker (c : ascii) : ascii_val c = marker <-> c = "@"%char.
Proof.
  split; [|intros ->; reflexivity].
  unfold ascii_val, marker. intros H.
  rewrite <- (ascii_N_embedding c).
  replace (N_of_ascii c) with 64%N by lia. reflexivity.
Qed.

Lemma substring_all (s : string) : substring 0 (String.length s) s = s.
Proof. induction s as [|c r IH]; simpl; [reflexivity | now rewrite IH]. Qed.

Lemma substring_split (n m : nat) (s : string) :
  String.length s = (n + m)%nat ->
  s = (substring 0 n s ++ substring n m s)%string.
Proof.
  revert s. induction n as [|n IH]; intros s Hs.
  - simpl in Hs. rewrite <- Hs, substring_all.
    destruct s; reflexivity.
  - destruct s as [|c r]; [discriminate|]. simpl in Hs.
    simpl. f_equal. apply IH. lia.
Qed.

Lemma substring_length (n m : nat) (s : string) :
  (n + m <= String.length s)%nat -> String.length (substring n m s) = m.
Proof.
  revert m s. induction n as [|n IH]; intros m s Hs.
  - revert s Hs. induction m as [|m IHm]; intros s Hs.
    + destruct s; reflexivity.
    + destruct s as [|c r]; simpl in Hs; [lia|].
      simpl. f_equal. apply IHm. lia.
  - destruct s as [|c r]; simpl in Hs; [lia|].
    simpl. apply IH. lia.
Qed.

Lemma all_hex_app (s1 s2 : string) :
  all_hex (s1 ++ s2) = all_hex s1 && all_hex s2.
Proof.
  induction s1 as [|c r IH]; simpl; [reflexivity|].
  now rewrite IH, andb_assoc.
Qed.

Lemma byte_val_range (x : byte) : 0 <= byte_val x < 256.
Proof.
  unfold byte_val. pose proof (Byte.to_N_bounded x). lia.
Qed.

Lemma lor_bound (n a b : Z) :
  0 <= n -> 0 <= a < 2 ^ n -> 0 <= b < 2 ^ n -> 0 <= Z.lor a b < 2 ^ n.
Proof.
  intros Hn Ha Hb. split; [apply Z.lor_nonneg; lia|].
  destruct (Z.eq_dec a 0) as [->|Ha0]; [rewrite Z.lor_0_l; lia|].
  destruct (Z.eq_dec b 0) as [->|Hb0]; [rewrite Z.lor_0_r; lia|].
  assert (Hl : 0 <= Z.lor a b) by (apply Z.lor_nonneg; lia).
  destruct (Z.eq_dec (Z.lor a b) 0) as [->|Hl0]; [lia|].
  apply Z.log2_lt_pow2; [lia|].
  rewrite Z.log2_lor by lia.
  apply Z.max_lub_lt; apply Z.log2_lt_pow2; lia.
Qed.

Lemma shiftl_byte_bound (x : byte) (k n : Z) :
  0 <= k -> k + 8 <= n -> 0 <= Z.shiftl (byte_val x) k < 2 ^ n.
Proof.
  intros Hk Hkn. pose proof (byte_val_range x) as Hx.
  rewrite Z.shiftl_mul_pow2 by lia.
  assert (Hp : 2 ^ n = 2 ^ k * 2 ^ (n - k)).
  { rewrite <- Z.pow_add_r by lia. f_equal. lia. }
  assert (H8 : 2 ^ 8 <= 2 ^ (n - k)) by (apply Z.pow_le_mono_r; lia).
  assert (0 < 2 ^ k) by (apply Z.pow_pos_nonneg; lia).
  change (2 ^ 8) with 256 in H8. rewrite Hp. nia.
Qed.

Lemma Uint64_bytes_range (b0 b1 b2 b3 b4 b5 b6 b7 : byte) :
  0 <= Z.lor (byte_val b7)
         (Z.lor (Z.shiftl (byte_val b6) 8)
         (Z.lor (Z.shiftl (byte_val b5) 16)
         (Z.lor (Z.shiftl (byte_val b4) 24)
         (Z.lor (Z.shiftl (byte_val b3) 32)
         (Z.lor (Z.shiftl (byte_val b2) 40)
         (Z.lor (Z.shiftl (byte_val b1) 48)
                (Z.shiftl (byte_val b0) 56)))))))
    < 2 ^ 64.
Proof.
  repeat (apply lor_bound; [lia| |]);
    try (apply shiftl_byte_bound; lia).
  pose proof (byte_val_range b7). lia.
Qed.

Lemma Uint32_bytes_range (b0 b1 b2 b3 : byte) :
  0 <= Z.lor (byte_val b3)
         (Z.lor (Z.shiftl (byte_val b2) 8)
         (Z.lor (Z.shiftl (byte_val b1) 16)
                (Z.shiftl (byte_val b0) 24)))
    < 2 ^ 32.
Proof.
  repeat (apply lor_bound; [lia| |]);
    try (apply shiftl_byte_bound; lia).
  pose proof (byte_val_range b3). lia.
Qed.

Lemma BigEndian_Uint64_range (b : list byte) (v : Z) :
  BigEndian_Uint64 b = Some v -> 0 <= v < 2 ^ 64.
Proof.
  destruct b as [|b0 [|b1 [|b2 [|b3 [|b4 [|b5 [|b6 [|b7 r]]]]]]]];
    try discriminate.
  intros H. injection H as E. rewrite <- E.
  exact (Uint64_bytes_range b0 b1 b2 b3 b4 b5 b6 b7).
Qed.

Lemma BigEndian_Uint32_range (b : list byte) (v : Z) :
  BigEndian_Uint32 b = Some v -> 0 <= v < 2 ^ 32.
Proof.
  destruct b as [|b0 [|b1 [|b2 [|b3 r]]]]; try discriminate.
  intros H. injection H as E. rewrite <- E.
  exact (Uint32_bytes_range b0 b1 b2 b3).
Qed.

Lemma BigEndian_Uint64_total (b : list byte) :
  (8 <= List.length b)%nat -> exists v, BigEndian_Uint64 b = Some v.
Proof.
  destruct b as [|b0 [|b1 [|b2 [|b3 [|b4 [|b5 [|b6 [|b7 r]]]]]]]];
    simpl; try lia.
  intros _. eexists. reflexivity.
Qed.

Lemma BigEndian_Uint32_total (b : list byte) :
  (4 <= List.length b)%nat -> exists v, BigEndian_Uint32 b = Some v.
Proof.
  destruct b as [|b0 [|b1 [|b2 [|b3 r]]]]; simpl; try lia.
  intros _. eexists. reflexivity.
Qed.

(* ----------------------------------------------------------------- *)
(** ** Big-endian bytes and hexadecimal digits *)

Lemma byte_val_of_Z (z : Z) : 0 <= z < 256 -> byte_val (byte_of_Z z) = z.
Proof.
  intros Hz. unfold byte_val, byte_of_Z.
  destruct (Byte.of_N (Z.to_N z)) as [x|] eqn:E.
  - apply Byte.to_of_N in E. rewrite E. lia.
  - apply Byte.of_N_None_iff in E. lia.
Qed.

Lemma lor_disjoint (k a h : Z) :
  0 <= k -> 0 <= a < 2 ^ k -> h mod 2 ^ k = 0 -> Z.lor a h = a + h.
Proof.
  intros Hk Ha Hh.
  assert (Hl : Z.land a h = 0).
  { apply Z.bits_inj'. intros n Hn. rewrite Z.land_spec, Z.bits_0.
    destruct (Z.lt_ge_cases n k) as [Hlt|Hge].
    - assert (E : h = h / 2 ^ k * 2 ^ k).
      { pose proof (Z.div_mod h (2 ^ k) ltac:(lia)). lia. }
      rewrite E, Z.mul_pow2_bits_low by lia. apply andb_false_r.
    - rewrite <- (Z.mod_small a (2 ^ k)) by lia.
      rewrite Z.mod_pow2_bits_high by lia. reflexivity. }
  rewrite <- Z.lxor_lor by exact Hl. symmetry. apply Z.add_nocarry_lxor. exact Hl.
Qed.

Lemma Uint64_bytes_sum (b0 b1 b2 b3 b4 b5 b6 b7 : byte) :
  Z.lor (byte_val b7)
    (Z.lor (Z.shiftl (byte_val b6) 8)
    (Z.lor (Z.shiftl (byte_val b5) 16)
    (Z.lor (Z.shiftl (byte_val b4) 24)
    (Z.lor (Z.shiftl (byte_val b3) 32)
    (Z.lor (Z.shiftl (byte_val b2) 40)
    (Z.lor (Z.shiftl (byte_val b1) 48)
           (Z.shiftl (byte_val b0) 56)))))))
  = byte_val b7 + 2 ^ 8 * byte_val b6 + 2 ^ 16 * byte_val b5
    + 2 ^ 24 * byte_val b4 + 2 ^ 32 * byte_val b3 + 2 ^ 40 * byte_val b2
    + 2 ^ 48 * byte_val b1 + 2 ^ 56 * byte_val b0.
Proof.
  pose proof (byte_val_range b0). pose proof (byte_val_range b1).
  pose proof (byte_val_range b2). pose proof (byte_val_range b3).
  pose proof (byte_val_range b4). pose proof (byte_val_range b5).
  pose proof (byte_val_range b6). pose proof (byte_val_range b7).
  rewrite !Z.shiftl_mul_pow2 by lia.
  rewrite (lor_disjoint 56 (byte_val b1 * 2 ^ 48) (byte_val b0 * 2 ^ 56))
    by (try lia; Z.to_euclidean_division_equations; lia).
  rewrite (lor_disjoint 48 (byte_val b2 * 2 ^ 40))
    by (try lia; Z.to_euclidean_division_equations; lia).
  rewrite (lor_disjoint 40 (byte_val b3 * 2 ^ 32))
    by (try lia; Z.to_euclidean_division_equations; lia).
  rewrite (lor_disjoint 32 (byte_val b4 * 2 ^ 24))
    by (try lia; Z.to_euclidean_division_equations; lia).
  rewrite (lor_disjoint 24 (byte_val b5 * 2 ^ 16))
    by (try lia; Z.to_euclidean_division_equations; lia).
  rewrite (lor_disjoint 16 (byte_val b6 * 2 ^ 8))
    by (try lia; Z.to_euclidean_division_equations; lia).
  rewrite (lor_disjoint 8 (byte_val b7))
    by (try lia; Z.to_euclidean_division_equations; lia).
  lia.
Qed.

Lemma Uint32_bytes_sum (b0 b1 b2 b3 : byte) :
  Z.lor (byte_val b3)
    (Z.lor (Z.shiftl (byte_val b2) 8)
    (Z.lor (Z.shiftl (byte_val b1) 16)
           (Z.shiftl (byte_val b0) 24)))
  = byte_val b3 + 2 ^ 8 * byte_val b2 + 2 ^ 16 * byte_val b1
    + 2 ^ 24 * byte_val b0.
Proof.
  pose proof (byte_val_range b0). pose proof (byte_val_range b1).
  pose proof (byte_val_range b2). pose proof (byte_val_range b3).
  rewrite !Z.shiftl_mul_pow2 by lia.
  rewrite (lor_disjoint 24 (byte_val b1 * 2 ^ 16) (byte_val b0 * 2 ^ 24))
    by (try lia; Z.to_euclidean_division_equations; lia).
  rewrite (lor_disjoint 16 (byte_val b2 * 2 ^ 8))
    by (try lia; Z.to_euclidean_division_equations; lia).
  rewrite (lor_disjoint 8 (byte_val b3))
    by (try lia; Z.to_euclidean_division_equations; lia).
  lia.
Qed.

Lemma BigEndian_Uint64_sum (b0 b1 b2 b3 b4 b5 b6 b7 : byte) :
  BigEndian_Uint64 [b0; b1; b2; b3; b4; b5; b6; b7] =
    Some (byte_val b7 + 2 ^ 8 * byte_val b6 + 2 ^ 16 * byte_val b5
          + 2 ^ 24 * byte_val b4 + 2 ^ 32 * byte_val b3 + 2 ^ 40 * byte_val b2
          + 2 ^ 48 * byte_val b1 + 2 ^ 56 * byte_val b0).
Proof.
  rewrite <- Uint64_bytes_sum. reflexivity.
Qed.

Lemma BigEndian_Uint32_sum (b0 b1 b2 b3 : byte) :
  BigEndian_Uint32 [b0; b1; b2; b3] =
    Some (byte_val b3 + 2 ^ 8 * byte_val b2 + 2 ^ 16 * byte_val b1
          + 2 ^ 24 * byte_val b0).
Proof.
  rewrite <- Uint32_bytes_sum. reflexivity.
Qed.

Ltac hex_digits H :=
  repeat match type of H with
  | (is_hex ?c && _) = true =>
      let Hc := fresh "Hc" in
      apply andb_true_iff in H; destruct H as [Hc H];
      apply hex_digit_range in Hc
  end.

Lemma hex_bytes_fields (r : string) :
  String.length r = 24%nat -> all_hex r = true ->
  List.length (hex_bytes r) = 12%nat /\
  BigEndian_Uint64 (firstn 8 (hex_bytes r))
    = Some (hex_value (substring 0 16 r)) /\
  BigEndian_Uint32 (skipn 8 (hex_bytes r))
    = Some (hex_value (substring 16 8 r)).
Proof.
  intros Hl Hh.
  do 24 (destruct r as [|? r]; [discriminate|]).
  destruct r; [|discriminate]. clear Hl.
  cbn [all_hex] in Hh. hex_digits Hh. clear Hh.
  cbn [hex_bytes firstn skipn substring List.length].
  split; [reflexivity|].
  rewrite BigEndian_Uint64_sum, BigEndian_Uint32_sum.
  rewrite !byte_val_of_Z by lia.
  unfold hex_value. cbn [hex_value_acc].
  split; f_equal; lia.
Qed.

(* ----------------------------------------------------------------- *)
(** ** The bias *)

(** [int64(sec - (1<<62))] for a [sec] that passed [sec > 1<<63]. *)
Lemma bias_no_wrap (sec : Z) :
  0 <= sec <= 2 ^ 63 ->
  wrap_int64 (wrap_uint64 (sec - Z.shiftl 1 62)) = sec - 2 ^ 62.
Proof.
  intros H. change (Z.shiftl 1 62) with (2 ^ 62).
  unfold wrap_int64, wrap_uint64.
  Z.to_euclidean_division_equations. lia.
Qed.

(* ----------------------------------------------------------------- *)
(** ** What the entry points compute *)

Lemma bad_shape_cons (c : ascii) (r : string) (n : nat) :
  bad_shape (String c r) (Z.of_nat (S n)) =
    Some (negb ((String.length r =? n)%nat && (ascii_val c =? marker))).
Proof.
  unfold bad_shape, len. cbn [String.length].
  destruct (Nat.eqb_spec (String.length r) n) as [Hl|Hl].
  - subst n. rewrite Z.eqb_refl. reflexivity.
  - destruct (Z.eqb_spec (Z.of_nat (S (String.length r))) (Z.of_nat (S n)));
      [lia | reflexivity].
Qed.

Lemma slice_tail (c : ascii) (r : string) :
  slice (String c r) 1 (String.length (String c r)) = Some r.
Proof.
  unfold slice. cbn [String.length].
  rewrite Nat.leb_refl.
  replace (S (String.length r) - 1)%nat with (String.length r) by lia.
  cbn [Nat.leb andb substring]. now rewrite substring_all.
Qed.

Lemma slice_fields (c : ascii) (r : string) :
  String.length r = 24%nat ->
  slice (String c r) 1 17 = Some (substring 0 16 r) /\
  slice (String c r) 17 25 = Some (substring 16 8 r).
Proof.
  intros Hl. unfold slice. cbn [String.length]. rewrite Hl. split; reflexivity.
Qed.

Lemma ParseTai64_cons (c : ascii) (r : string) :
  ParseTai64 (String c r) =
    if (String.length r =? 16)%nat && (ascii_val c =? marker)
       && all_hex r && (hex_value r <=? 2 ^ 63)
    then Some (EpochTime (hex_value r - 2 ^ 62) 0, None)
    else failure.
Proof.
  unfold ParseTai64. change 17 with (Z.of_nat 17).
  rewrite bad_shape_cons. cbn [bind].
  destruct (Nat.eqb_spec (String.length r) 16) as [Hl|Hl]; [|reflexivity].
  destruct (ascii_val c =? marker); [|reflexivity].
  cbn [andb negb]. rewrite slice_tail. cbn [bind].
  destruct (all_hex r) eqn:Hh.
  - destruct (ParseUint_hex64 r Hl Hh) as [-> Hv]. cbn [andb].
    change (Z.shiftl 1 63) with (2 ^ 63).
    rewrite Z.gtb_ltb, Z.ltb_antisym. 
    destruct (Z.leb_spec (hex_value r) (2 ^ 63)) as [Hle|Hgt]; [|reflexivity].
    cbn [negb]. rewrite bias_no_wrap by lia. reflexivity.
  - pose proof (ParseUint_not_hex r 64 Hh) as He.
    destruct (ParseUint r 16 64) as [v [e|]]; [reflexivity|].
    simpl in He. congruence.
Qed.

Lemma ParseTai64n_cons (c : ascii) (r : string) :
  ParseTai64n (String c r) =
    if (String.length r =? 24)%nat && (ascii_val c =? marker)
       && all_hex (substring 0 16 r) && all_hex (substring 16 8 r)
       && (hex_value (substring 0 16 r) <=? 2 ^ 63)
    then Some (EpochTime (hex_value (substring 0 16 r) - 2 ^ 62)
                         (hex_value (substring 16 8 r)), None)
    else failure.
Proof.
  unfold ParseTai64n. change 25 with (Z.of_nat 25).
  rewrite bad_shape_cons. cbn [bind].
  destruct (Nat.eqb_spec (String.length r) 24) as [Hl|Hl]; [|reflexivity].
  destruct (ascii_val c =? marker); [|reflexivity].
  cbn [andb negb].
  destruct (slice_fields c r Hl) as [-> ->]. cbn [bind].
  assert (L1 : String.length (substring 0 16 r) = 16%nat)
    by (apply substring_length; lia).
  assert (L2 : String.length (substring 16 8 r) = 8%nat)
    by (apply substring_length; lia).
  destruct (all_hex (substring 0 16 r)) eqn:Hh1.
  - destruct (ParseUint_hex64 _ L1 Hh1) as [-> Hv]. cbn [andb].
    destruct (all_hex (substring 16 8 r)) eqn:Hh2.
    + destruct (ParseUint_hex32 _ L2 Hh2) as [-> Hn]. cbn [andb].
      change (Z.shiftl 1 63) with (2 ^ 63).
      rewrite Z.gtb_ltb, Z.ltb_antisym.
      destruct (Z.leb_spec (hex_value (substring 0 16 r)) (2 ^ 63))
        as [Hle|Hgt]; [|reflexivity].
      cbn [negb]. rewrite bias_no_wrap by lia.
      rewrite wrap_int64_id by (int_unfold; lia). reflexivity.
    + pose proof (ParseUint_not_hex _ 32 Hh2) as He.
      destruct (ParseUint (substring 16 8 r) 16 32) as [v [e|]];
        [reflexivity|].
      simpl in He. congruence.
  - pose proof (ParseUint_not_hex _ 64 Hh1) as He.
    destruct (ParseUint (substring 0 16 r) 16 64) as [v [e|]];
      [reflexivity|].
    simpl in He. congruence.
Qed.

Lemma DecodeTai64_length (b : list byte) :
  List.length b = 8%nat ->
  exists sec, BigEndian_Uint64 b = Some sec /\ 0 <= sec < 2 ^ 64 /\
    DecodeTai64 b =
      if sec <=? 2 ^ 63
      then Some (EpochTime (sec - 2 ^ 62) 0, None) else failure.
Proof.
  intros Hl.
  destruct (BigEndian_Uint64_total b ltac:(lia)) as [sec Hsec].
  pose proof (BigEndian_Uint64_range b sec Hsec) as Hr.
  exists sec. split; [exact Hsec|]. split; [exact Hr|].
  unfold DecodeTai64. rewrite Hl, Hsec. cbn [Nat.eqb negb bind].
  change (Z.shiftl 1 63) with (2 ^ 63).
  rewrite Z.gtb_ltb, Z.ltb_antisym.
  destruct (Z.leb_spec sec (2 ^ 63)) as [Hle|Hgt]; [|reflexivity].
  cbn [negb]. rewrite bias_no_wrap by lia. reflexivity.
Qed.

Lemma DecodeTai64n_length (b : list byte) :
  List.length b = 12%nat ->
  exists sec nsec,
    BigEndian_Uint64 (firstn 8 b) = Some sec /\ 0 <= sec < 2 ^ 64 /\
    BigEndian_Uint32 (skipn 8 b) = Some nsec /\ 0 <= nsec < 2 ^ 32 /\
    DecodeTai64n b =
      if sec <=? 2 ^ 63
      then Some (EpochTime (sec - 2 ^ 62) nsec, None) else failure.
Proof.
  intros Hl.
  assert (S1 : slice_bytes b 0 8 = Some (firstn 8 b)).
  { unfold slice_bytes. rewrite Hl. reflexivity. }
  assert (S2 : slice_bytes b 8 12 = Some (skipn 8 b)).
  { unfold slice_bytes. rewrite Hl. cbn [Nat.leb andb Nat.sub].
    f_equal. apply firstn_all2. rewrite length_skipn. lia. }
  destruct (BigEndian_Uint64_total (firstn 8 b)) as [sec Hsec].
  { rewrite length_firstn. lia. }
  destruct (BigEndian_Uint32_total (skipn 8 b)) as [nsec Hnsec].
  { rewrite length_skipn. lia. }
  pose proof (BigEndian_Uint64_range _ sec Hsec) as Hr.
  pose proof (BigEndian_Uint32_range _ nsec Hnsec) as Hn.
  exists sec, nsec. repeat (split; [assumption || lia|]).
  unfold DecodeTai64n. rewrite Hl, S1. cbn [Nat.eqb negb bind].
  rewrite Hsec, S2. cbn [bind]. rewrite Hnsec. cbn [bind].
  change (Z.shiftl 1 63) with (2 ^ 63).
  rewrite Z.gtb_ltb, Z.ltb_antisym.
  destruct (Z.leb_spec sec (2 ^ 63)) as [Hle|Hgt]; [|reflexivity].
  cbn [negb]. rewrite bias_no_wrap by lia.
  rewrite wrap_int64_id by (int_unfold; lia). reflexivity.
Qed.

(* ----------------------------------------------------------------- *)
(** ** The entry points *)

(** [ParseTai64] on every string. *)
Lemma ParseTai64_cases (s : string) :
  (forall t : Time,
     ParseTai64 s = Some (t, None) <->
     String.length s = 17%nat /\
     String.get 0 s = Some "@"%char /\
     all_hex (substring 1 16 s) = true /\
     hex_value (substring 1 16 s) <= 2 ^ 63 /\
     t = EpochTime (hex_value (substring 1 16 s) - 2 ^ 62) 0) /\
  (ParseTai64 s = failure \/ exists t, ParseTai64 s = Some (t, None)).
Proof.
  destruct s as [|c r].
  - split; [|left; reflexivity].
    intros t. split; [discriminate|]. intros [H _]. discriminate.
  - rewrite ParseTai64_cons. cbn [String.length String.get substring].
    destruct (Nat.eqb_spec (String.length r) 16) as [Hl|Hl].
    + assert (Hsub : substring 0 16 r = r)
        by (rewrite <- Hl; apply substring_all).
      rewrite Hsub.
      destruct (Z.eqb_spec (ascii_val c) marker) as [Hc|Hc].
      * apply ascii_val_marker in Hc. subst c.
        destruct (all_hex r) eqn:Hh.
        -- destruct (Z.leb_spec (hex_value r) (2 ^ 63)) as [Hle|Hgt];
             cbn [andb].
           ++ split; [|right; eexists; reflexivity].
              intros t. split.
              ** intros [= <-]. repeat split; (reflexivity || lia).
              ** intros (_ & _ & _ & _ & ->). reflexivity.
           ++ split; [|left; reflexivity].
              intros t. split; [discriminate|].
              intros (_ & _ & _ & Hle & _). lia.
        -- cbn [andb]. split; [|left; reflexivity].
           intros t. split; [discriminate|].
           intros (_ & _ & Hx & _). discriminate.
      * cbn [andb]. split; [|left; reflexivity].
        intros t. split; [discriminate|].
        intros (_ & Hg & _). injection Hg as ->. now elim Hc.
    + cbn [andb]. split; [|left; reflexivity].
      intros t. split; [discriminate|]. intros [H _]. lia.
Qed.

(** C6.  [ParseTai64] returns a [nil] error exactly on the strings of
    length 17 whose first byte is ['@'] and whose other 16 bytes are
    hexadecimal digits of a number that does not exceed [2^63]; the
    time returned is then [EpochTime(number - 2^62, 0)].  On every other
    string it returns the zero time and [parseError]. *)
Theorem ParseTai64_succeeds (s : string) :
  (forall t : Time,
     ParseTai64 s = Some (t, None) <->
     String.length s = 17%nat /\
     String.get 0 s = Some "@"%char /\
     all_hex (substring 1 16 s) = true /\
     hex_value (substring 1 16 s) <= 2 ^ 63 /\
     t = EpochTime (hex_value (substring 1 16 s) - 2 ^ 62) 0) /\
  (ParseTai64 s = failure \/ exists t, ParseTai64 s = Some (t, None)).
Proof. exact (ParseTai64_cases s). Qed.

Lemma ParseTai64_succeeds_witness :
  ParseTai64 "@4000000043b94106" =
    Some (EpochTime (hex_value "4000000043b94106" - 2 ^ 62) 0, None).
Proof.
  apply (proj2 (proj1 (ParseTai64_succeeds "@4000000043b94106") _)).
  repeat split; vm_compute; congruence.
Defined.

(** C10.  For an unsigned 64-bit [sec] that passes the guard
    [sec > 1<<63], the conversion [int64(sec - (1<<62))], an unsigned
    subtraction that wraps around followed by the reading of the bits
    as an int64, is the number [sec - 2^62]; this lies between
    [-2^62] and [2^62], is negative when [sec < 2^62], and is what each
    of the four entry points hands to [EpochTime]. *)
Theorem bias_exact (sec : Z) :
  in_uint64 sec -> (sec >? Z.shiftl 1 63) = false ->
  wrap_int64 (wrap_uint64 (sec - Z.shiftl 1 62)) = sec - 2 ^ 62 /\
  - 2 ^ 62 <= sec - 2 ^ 62 <= 2 ^ 62 /\
  in_int64 (sec - 2 ^ 62) /\
  (sec < 2 ^ 62 -> wrap_int64 (wrap_uint64 (sec - Z.shiftl 1 62)) < 0) /\
  (forall r, String.length r = 16%nat -> all_hex r = true ->
     hex_value r = sec ->
     ParseTai64 (String "@" r) = Some (EpochTime (sec - 2 ^ 62) 0, None)) /\
  (forall r, String.length r = 24%nat -> all_hex r = true ->
     hex_value (substring 0 16 r) = sec ->
     ParseTai64n (String "@" r) =
       Some (EpochTime (sec - 2 ^ 62) (hex_value (substring 16 8 r)), None)) /\
  (forall b, List.length b = 8%nat -> BigEndian_Uint64 b = Some sec ->
     DecodeTai64 b = Some (EpochTime (sec - 2 ^ 62) 0, None)) /\
  (forall b nsec, List.length b = 12%nat ->
     BigEndian_Uint64 (firstn 8 b) = Some sec ->
     BigEndian_Uint32 (skipn 8 b) = Some nsec ->
     DecodeTai64n b = Some (EpochTime (sec - 2 ^ 62) nsec, None)).
Proof.
  intros Hu Hg. change (Z.shiftl 1 63) with (2 ^ 63) in Hg.
  rewrite Z.gtb_ltb in Hg. apply Z.ltb_ge in Hg.
  assert (Hs : 0 <= sec <= 2 ^ 63) by (unfold in_uint64 in Hu; lia).
  pose proof (bias_no_wrap sec Hs) as Hb.
  assert (Hle : (sec <=? 2 ^ 63) = true) by (apply Z.leb_le; lia).
  split; [exact Hb|]. split; [lia|]. split; [int_unfold; lia|].
  split; [rewrite Hb; lia|].
  split; [|split; [|split]].
  - intros r Hl Hh Hv. rewrite ParseTai64_cons, Hl, Hh, Hv, Hle. reflexivity.
  - intros r Hl Hh Hv. rewrite ParseTai64n_cons, Hl, Hv, Hle.
    rewrite (substring_split 16 8 r Hl), all_hex_app in Hh.
    apply andb_true_iff in Hh. destruct Hh as [-> ->]. reflexivity.
  - intros b Hl Hv.
    destruct (DecodeTai64_length b Hl) as (sec' & Hv' & _ & ->).
    assert (sec' = sec) by congruence. subst sec'. now rewrite Hle.
  - intros b nsec Hl Hv Hn.
    destruct (DecodeTai64n_length b Hl) as (sec' & nsec' & Hv' & _ & Hn' & _ & ->).
    assert (sec' = sec) by congruence.
    assert (nsec' = nsec) by congruence. subst. now rewrite Hle.
Qed.

Lemma bias_exact_witness :
  wrap_int64 (wrap_uint64 (4611686018427387903 - Z.shiftl 1 62)) = -1 /\
  DecodeTai64 [x3f; xff; xff; xff; xff; xff; xff; xff] =
    Some (EpochTime (-1) 0, None).
Proof.
  assert (Hu : in_uint64 4611686018427387903)
    by (vm_compute; split; discriminate).
  pose proof (bias_exact 4611686018427387903 Hu eq_refl) as H.
  split.
  - exact (proj1 H).
  - exact (proj1 (proj2 (proj2 (proj2 (proj2 (proj2 (proj2 H))))))
             [x3f; xff; xff; xff; xff; xff; xff; xff] eq_refl eq_refl).
Defined.

(** C2.  For a string made of ['@'] and 24 hexadecimal digits whose
    seconds field does not exceed [2^63], [ParseTai64n] returns a time
    and a [nil] error, and [DecodeTai64n] returns the same on every 12
    bytes that hold the same seconds (the first 8, big-endian) and the
    same nanoseconds (the last 4); the bytes that the 24 digits spell
    are such bytes. *)
Theorem ParseTai64n_DecodeTai64n (r : string) :
  String.length r = 24%nat -> all_hex r = true ->
  hex_value (substring 0 16 r) <= 2 ^ 63 ->
  (exists t, ParseTai64n (String "@" r) = Some (t, None)) /\
  (forall b : list byte,
     List.length b = 12%nat ->
     BigEndian_Uint64 (firstn 8 b) = Some (hex_value (substring 0 16 r)) ->
     BigEndian_Uint32 (skipn 8 b) = Some (hex_value (substring 16 8 r)) ->
     DecodeTai64n b = ParseTai64n (String "@" r)) /\
  DecodeTai64n (hex_bytes r) = ParseTai64n (String "@" r).
Proof.
  intros Hl Hh Hr.
  assert (Hle : (hex_value (substring 0 16 r) <=? 2 ^ 63) = true)
    by (apply Z.leb_le; exact Hr).
  assert (P : ParseTai64n (String "@" r) =
              Some (EpochTime (hex_value (substring 0 16 r) - 2 ^ 62)
                              (hex_value (substring 16 8 r)), None)).
  { rewrite ParseTai64n_cons, Hl, Hle.
    pose proof Hh as Hh'.
    rewrite (substring_split 16 8 r Hl), all_hex_app in Hh'.
    apply andb_true_iff in Hh'. destruct Hh' as [-> ->]. reflexivity. }
  assert (D : forall b : list byte,
     List.length b = 12%nat ->
     BigEndian_Uint64 (firstn 8 b) = Some (hex_value (substring 0 16 r)) ->
     BigEndian_Uint32 (skipn 8 b) = Some (hex_value (substring 16 8 r)) ->
     DecodeTai64n b = ParseTai64n (String "@" r)).
  { intros b Hb H64 H32. rewrite P.
    destruct (DecodeTai64n_length b Hb) as (sec & nsec & Hv & _ & Hn & _ & ->).
    assert (sec = hex_value (substring 0 16 r)) by congruence.
    assert (nsec = hex_value (substring 16 8 r)) by congruence.
    subst. now rewrite Hle. }
  split; [eexists; exact P|]. split; [exact D|].
  destruct (hex_bytes_fields r Hl Hh) as (L & H64 & H32).
  apply D; assumption.
Qed.

Lemma ParseTai64n_DecodeTai64n_witness :
  DecodeTai64n [x40; x00; x00; x00; x37; xc2; x19; xbf; x2e; xf0; x2e; x94]
  = ParseTai64n "@4000000037c219bf2ef02e94".
Proof.
  apply (proj1 (proj2 (ParseTai64n_DecodeTai64n "4000000037c219bf2ef02e94"
           eq_refl eq_refl ltac:(vm_compute; congruence))));
    vm_compute; reflexivity.
Defined.

(** C3, the boundary.  The label whose seconds are exactly [2^63] is
    accepted by the four entry points: the guard is [sec > 1<<63]. *)
Theorem boundary_label_accepted :
  hex_value "8000000000000000" = 2 ^ 63 /\
  BigEndian_Uint64 [x80; x00; x00; x00; x00; x00; x00; x00] = Some (2 ^ 63) /\
  ParseTai64 "@8000000000000000" = Some (EpochTime (2 ^ 62) 0, None) /\
  ParseTai64n "@800000000000000000000000" = Some (EpochTime (2 ^ 62) 0, None) /\
  DecodeTai64 [x80; x00; x00; x00; x00; x00; x00; x00]
    = Some (EpochTime (2 ^ 62) 0, None) /\
  DecodeTai64n [x80; x00; x00; x00; x00; x00; x00; x00; x00; x00; x00; x00]
    = Some (EpochTime (2 ^ 62) 0, None) /\
  Time_IsZero (EpochTime (2 ^ 62) 0) = false.
Proof. vm_compute. repeat split; reflexivity. Qed.

(** [ParseTai64n], in the same way. *)
Lemma ParseTai64n_cases (s : string) :
  (forall t : Time,
     ParseTai64n s = Some (t, None) <->
     String.length s = 25%nat /\
     String.get 0 s = Some "@"%char /\
     all_hex (substring 1 24 s) = true /\
     hex_value (substring 1 16 s) <= 2 ^ 63 /\
     t = EpochTime (hex_value (substring 1 16 s) - 2 ^ 62)
                   (hex_value (substring 17 8 s))) /\
  (ParseTai64n s = failure \/ exists t, ParseTai64n s = Some (t, None)).
Proof.
  destruct s as [|c r].
  - split; [|left; reflexivity].
    intros t. split; [discriminate|]. intros [H _]. discriminate.
  - rewrite ParseTai64n_cons. cbn [String.length String.get substring].
    destruct (Nat.eqb_spec (String.length r) 24) as [Hl|Hl].
    + assert (Hsub : substring 0 24 r = r)
        by (rewrite <- Hl; apply substring_all).
      rewrite Hsub.
      assert (Hh : all_hex r =
                   all_hex (substring 0 16 r) && all_hex (substring 16 8 r)).
      { rewrite (substring_split 16 8 r Hl) at 1. apply all_hex_app. }
      rewrite Hh.
      destruct (Z.eqb_spec (ascii_val c) marker) as [Hc|Hc].
      * apply ascii_val_marker in Hc. subst c.
        destruct (all_hex (substring 0 16 r)), (all_hex (substring 16 8 r));
          cbn [andb];
          try (split; [|left; reflexivity];
               intros t; split; [discriminate|];
               intros (_ & _ & Hx & _); discriminate).
        destruct (Z.leb_spec (hex_value (substring 0 16 r)) (2 ^ 63))
          as [Hle|Hgt].
        -- split; [|right; eexists; reflexivity].
           intros t. split.
           ++ intros [= <-]. repeat split; (reflexivity || lia).
           ++ intros (_ & _ & _ & _ & ->). reflexivity.
        -- split; [|left; reflexivity].
           intros t. split; [discriminate|].
           intros (_ & _ & _ & Hle & _). lia.
      * cbn [andb]. split; [|left; reflexivity].
        intros t. split; [discriminate|].
        intros (_ & Hg & _). injection Hg as ->. now elim Hc.
    + cbn [andb]. split; [|left; reflexivity].
      intros t. split; [discriminate|]. intros [H _]. lia.
Qed.

Lemma failure_not_success (t : Time) : failure <> Some (t, None).
Proof. discriminate. Qed.

(** Everything else the four entry points refuse, with the zero time
    and [parseError]: a wrong length, a first byte that is not ['@'],
    a byte that is not a hexadecimal digit, seconds above [2^63]. *)
Lemma malformed_rejected :
  (forall s,
     String.length s <> 17%nat \/ String.get 0 s <> Some "@"%char \/
     all_hex (substring 1 16 s) = false \/
     2 ^ 63 < hex_value (substring 1 16 s) ->
     ParseTai64 s = failure) /\
  (forall s,
     String.length s <> 25%nat \/ String.get 0 s <> Some "@"%char \/
     all_hex (substring 1 24 s) = false \/
     2 ^ 63 < hex_value (substring 1 16 s) ->
     ParseTai64n s = failure) /\
  (forall b,
     List.length b <> 8%nat \/
     (exists sec, BigEndian_Uint64 b = Some sec /\ 2 ^ 63 < sec) ->
     DecodeTai64 b = failure) /\
  (forall b,
     List.length b <> 12%nat \/
     (exists sec, BigEndian_Uint64 (firstn 8 b) = Some sec /\ 2 ^ 63 < sec) ->
     DecodeTai64n b = failure) /\
  failure = Some (zeroTime, Some parseError) /\
  Time_IsZero zeroTime = true.
Proof.
  split; [|split; [|split; [|split; [|split; reflexivity]]]].
  - intros s H. destruct (ParseTai64_cases s) as [Hiff [Hf|[t Ht]]];
      [exact Hf|].
    apply Hiff in Ht. destruct Ht as (H1 & H2 & H3 & H4 & _).
    destruct H as [H|[H|[H|H]]]; [congruence | congruence | congruence | lia].
  - intros s H. destruct (ParseTai64n_cases s) as [Hiff [Hf|[t Ht]]];
      [exact Hf|].
    apply Hiff in Ht. destruct Ht as (H1 & H2 & H3 & H4 & _).
    destruct H as [H|[H|[H|H]]]; [congruence | congruence | congruence | lia].
  - intros b [H|(sec & Hs & Hgt)].
    + unfold DecodeTai64. apply Nat.eqb_neq in H. now rewrite H.
    + destruct (Nat.eq_dec (List.length b) 8) as [Hl|Hl].
      * destruct (DecodeTai64_length b Hl) as (sec' & Hv' & _ & ->).
        assert (sec' = sec) by congruence. subst sec'.
        destruct (Z.leb_spec sec (2 ^ 63)); [lia | reflexivity].
      * unfold DecodeTai64. apply Nat.eqb_neq in Hl. now rewrite Hl.
  - intros b [H|(sec & Hs & Hgt)].
    + unfold DecodeTai64n. apply Nat.eqb_neq in H. now rewrite H.
    + destruct (Nat.eq_dec (List.length b) 12) as [Hl|Hl].
      * destruct (DecodeTai64n_length b Hl)
          as (sec' & nsec & Hv' & _ & _ & _ & ->).
        assert (sec' = sec) by congruence. subst sec'.
        destruct (Z.leb_spec sec (2 ^ 63)); [lia | reflexivity].
      * unfold DecodeTai64n. apply Nat.eqb_neq in Hl. now rewrite Hl.
Qed.

(** No entry point panics: it returns the failure or a time and [nil]. *)
Lemma entry_points_total :
  (forall s, ParseTai64 s = failure \/ exists t, ParseTai64 s = Some (t, None)) /\
  (forall s, ParseTai64n s = failure \/ exists t, ParseTai64n s = Some (t, None)) /\
  (forall b, DecodeTai64 b = failure \/ exists t, DecodeTai64 b = Some (t, None)) /\
  (forall b, DecodeTai64n b = failure \/ exists t, DecodeTai64n b = Some (t, None)).
Proof.
  split; [|split; [|split]].
  - intros s. apply ParseTai64_cases.
  - intros s. apply ParseTai64n_cases.
  - intros b. destruct (Nat.eq_dec (List.length b) 8) as [Hl|Hl].
    + destruct (DecodeTai64_length b Hl) as (sec & _ & _ & ->).
      destruct (sec <=? 2 ^ 63); [right; eexists; reflexivity | left; reflexivity].
    + left. unfold DecodeTai64. apply Nat.eqb_neq in Hl. now rewrite Hl.
  - intros b. destruct (Nat.eq_dec (List.length b) 12) as [Hl|Hl].
    + destruct (DecodeTai64n_length b Hl) as (sec & nsec & _ & _ & _ & _ & ->).
      destruct (sec <=? 2 ^ 63); [right; eexists; reflexivity | left; reflexivity].
    + left. unfold DecodeTai64n. apply Nat.eqb_neq in Hl. now rewrite Hl.
Qed.

(* ================================================================= *)
(** * The tests of the package

    The table-driven tests of [tai64n_test.go], with the expected times
    written as seconds and nanoseconds since the Unix epoch. *)

Example test_ParseTai64n :
  map (fun s => observe (ParseTai64n s))
    [ "@4000000037c219bf2ef02e94"; "@4000000052c65e550cd675fc";
      "@4000000043b9410600000000"; "@400000000000000000000000";
      "@400000000000000100000000"; "@400000000000000A00000000";
      "@3FFFFFFFFFFFFFFF00000000"; "@400000002a2b2c2d00000000" ]%string
  = [ Some (935467423, 787492500, None);   (* 1999-08-24T04:03:43.7874925Z *)
      Some (1388731954, 215381500, None);  (* 2014-01-03T06:52:34.2153815Z *)
      Some (1136214245, 0, None);          (* 2006-01-02T15:04:05Z *)
      Some (-10, 0, None);                 (* 1969-12-31T23:59:50Z *)
      Some (-9, 0, None);                  (* 1969-12-31T23:59:51Z *)
      Some (0, 0, None);                   (* 1970-01-01T00:00:00Z *)
      Some (-11, 0, None);                 (* 1969-12-31T23:59:49Z *)
      Some (707472403, 0, None) ].         (* 1992-06-02T08:06:43Z *)
Proof. vm_compute. reflexivity. Qed.

Example test_ParseTai64n_bad :
  map ParseTai64n
    [ "4000000037c219bf2ef02e94"; "4000000037c219bf2ef02e941";
      "@4000000037c219bf2ef02e9"; "@4000000037c219bf2ef02e941";
      "@f000000037c219bf2ef02e94"; "@G00000000000000000000000" ]%string
  = repeat failure 6.
Proof. vm_compute. reflexivity. Qed.

Example test_DecodeTai64n :
  map (fun b => observe (DecodeTai64n b))
    [ [x40; x00; x00; x00; x37; xc2; x19; xbf; x2e; xf0; x2e; x94];
      [x40; x00; x00; x00; x52; xc6; x5e; x55; x0c; xd6; x75; xfc];
      [x40; x00; x00; x00; x43; xb9; x41; x06; x00; x00; x00; x00];
      [x40; x00; x00; x00; x00; x00; x00; x00; x00; x00; x00; x00];
      [x40; x00; x00; x00; x00; x00; x00; x01; x00; x00; x00; x00];
      [x40; x00; x00; x00; x00; x00; x00; x0a; x00; x00; x00; x00];
      [x3f; xff; xff; xff; xff; xff; xff; xff; x00; x00; x00; x00];
      [x40; x00; x00; x00; x2a; x2b; x2c; x2d; x00; x00; x00; x00] ]
  = [ Some (935467423, 787492500, None);
      Some (1388731954, 215381500, None);
      Some (1136214245, 0, None);
      Some (-10, 0, None);
      Some (-9, 0, None);
      Some (0, 0, None);
      Some (-11, 0, None);
      Some (707472403, 0, None) ].
Proof. vm_compute. reflexivity. Qed.

Example test_DecodeTai64n_bad :
  map DecodeTai64n
    [ [x40; x00; x00; x00; x00; x00; x00; x00; x00; x00; x00; x00; x00];
      [x40; x00; x00; x00; x00; x00; x00; x00; x00; x00; x00];
      [xf0; x00; x00; x00; x00; x00; x00; x00; x00; x00; x00; x00] ]
  = repeat failure 3.
Proof. vm_compute. reflexivity. Qed.

Example test_ParseTai64 :
  map (fun s => observe (ParseTai64 s))
    [ "@4000000037c219bf"; "@4000000052c65e55"; "@4000000043b94106";
      "@4000000000000000"; "@4000000000000001"; "@400000000000000A";
      "@3FFFFFFFFFFFFFFF"; "@400000002a2b2c2d" ]%string
  = [ Some (935467423, 0, None);
      Some (1388731954, 0, None);
      Some (1136214245, 0, None);
      Some (-10, 0, None);
      Some (-9, 0, None);
      Some (0, 0, None);
      Some (-11, 0, None);
      Some (707472403, 0, None) ].
Proof. vm_compute. reflexivity. Qed.

Example test_ParseTai64_bad :
  map ParseTai64
    [ "4000000037c219bf"; "4000000037c219bf1"; "@4000000037c219b";
      "@4000000037c219bf1"; "@f000000037c219bf"; "@G000000000000000" ]%string
  = repeat failure 6.
Proof. vm_compute. reflexivity. Qed.

Example test_DecodeTai64 :
  map (fun b => observe (DecodeTai64 b))
    [ [x40; x00; x00; x00; x37; xc2; x19; xbf];
      [x40; x00; x00; x00; x52; xc6; x5e; x55];
      [x40; x00; x00; x00; x43; xb9; x41; x06];
      [x40; x00; x00; x00; x00; x00; x00; x00];
      [x40; x00; x00; x00; x00; x00; x00; x01];
      [x40; x00; x00; x00; x00; x00; x00; x0a];
      [x3f; xff; xff; xff; xff; xff; xff; xff];
      [x40; x00; x00; x00; x2a; x2b; x2c; x2d] ]
  = [ Some (935467423, 0, None);
      Some (1388731954, 0, None);
      Some (1136214245, 0, None);
      Some (-10, 0, None);
      Some (-9, 0, None);
      Some (0, 0, None);
      Some (-11, 0, None);
      Some (707472403, 0, None) ].
Proof. vm_compute. reflexivity. Qed.

Example test_DecodeTai64_bad :
  map DecodeTai64
    [ [x40; x00; x00; x00; x00; x00; x00; x00; x00];
      [x40; x00; x00; x00; x00; x00; x00];
      [xf0; x00; x00; x00; x00; x00; x00; x00] ]
  = repeat failure 3.
Proof. vm_compute. reflexivity. Qed.

(* ================================================================= *)
(** * Further properties of the package *)

(* ----------------------------------------------------------------- *)
(** ** Helpers *)

Lemma be_value_8 (b0 b1 b2 b3 b4 b5 b6 b7 : byte) :
  BigEndian_Uint64 [b0; b1; b2; b3; b4; b5; b6; b7]
  = Some (be_value [b0; b1; b2; b3; b4; b5; b6; b7]).
Proof.
  rewrite BigEndian_Uint64_sum. unfold be_value. cbn [fold_left].
  f_equal. lia.
Qed.

Lemma be_value_4 (b0 b1 b2 b3 : byte) :
  BigEndian_Uint32 [b0; b1; b2; b3] = Some (be_value [b0; b1; b2; b3]).
Proof.
  rewrite BigEndian_Uint32_sum. unfold be_value. cbn [fold_left].
  f_equal. lia.
Qed.

Lemma BigEndian_Uint64_be_value (b : list byte) :
  List.length b = 8%nat -> BigEndian_Uint64 b = Some (be_value b).
Proof.
  intros Hl.
  do 8 (destruct b as [|? b]; [discriminate|]).
  destruct b; [|discriminate]. apply be_value_8.
Qed.

Lemma BigEndian_Uint32_be_value (b : list byte) :
  List.length b = 4%nat -> BigEndian_Uint32 b = Some (be_value b).
Proof.
  intros Hl.
  do 4 (destruct b as [|? b]; [discriminate|]).
  destruct b; [|discriminate]. apply be_value_4.
Qed.

Lemma DecodeTai64_be_value (b : list byte) :
  List.length b = 8%nat ->
  0 <= be_value b < 2 ^ 64 /\
  DecodeTai64 b =
    if be_value b <=? 2 ^ 63
    then Some (EpochTime (be_value b - 2 ^ 62) 0, None) else failure.
Proof.
  intros Hl.
  destruct (DecodeTai64_length b Hl) as (sec & Hv & Hr & ->).
  rewrite (BigEndian_Uint64_be_value b Hl) in Hv. injection Hv as <-.
  split; [exact Hr | reflexivity].
Qed.

Lemma DecodeTai64n_be_value (b : list byte) :
  List.length b = 12%nat ->
  0 <= be_value (firstn 8 b) < 2 ^ 64 /\
  0 <= be_value (skipn 8 b) < 2 ^ 32 /\
  DecodeTai64n b =
    if be_value (firstn 8 b) <=? 2 ^ 63
    then Some (EpochTime (be_value (firstn 8 b) - 2 ^ 62)
                         (be_value (skipn 8 b)), None)
    else failure.
Proof.
  intros Hl.
  destruct (DecodeTai64n_length b Hl)
    as (sec & nsec & Hv & Hr & Hn & Hnr & ->).
  rewrite BigEndian_Uint64_be_value in Hv
    by (rewrite length_firstn; lia).
  rewrite BigEndian_Uint32_be_value in Hn
    by (rewrite length_skipn; lia).
  injection Hv as <-. injection Hn as <-.
  split; [exact Hr|]. split; [exact Hnr | reflexivity].
Qed.

Lemma DecodeTai64_wrong_length (b : list byte) :
  List.length b <> 8%nat -> DecodeTai64 b = failure.
Proof.
  intros H. unfold DecodeTai64. apply Nat.eqb_neq in H. now rewrite H.
Qed.

Lemma DecodeTai64n_wrong_length (b : list byte) :
  List.length b <> 12%nat -> DecodeTai64n b = failure.
Proof.
  intros H. unfold DecodeTai64n. apply Nat.eqb_neq in H. now rewrite H.
Qed.

(* ----------------------------------------------------------------- *)
(** ** What each entry point accepts *)

(** X1.  [ParseTai64n] returns a [nil] error exactly on the strings of
    length 25 whose first byte is ['@'] and whose other 24 bytes are
    hexadecimal digits, the first 16 of them a number that does not
    exceed [2^63]; the time is then [EpochTime] of that number less
    [2^62] and of the number the last 8 digits spell, whatever it is.
    On every other string it returns the zero time and [parseError]. *)
Theorem ParseTai64n_succeeds (s : string) :
  (forall t : Time,
     ParseTai64n s = Some (t, None) <->
     String.length s = 25%nat /\
     String.get 0 s = Some "@"%char /\
     all_hex (substring 1 24 s) = true /\
     hex_value (substring 1 16 s) <= 2 ^ 63 /\
     t = EpochTime (hex_value (substring 1 16 s) - 2 ^ 62)
                   (hex_value (substring 17 8 s))) /\
  (ParseTai64n s = failure \/ exists t, ParseTai64n s = Some (t, None)).
Proof. exact (ParseTai64n_cases s). Qed.

Lemma ParseTai64n_succeeds_witness :
  ParseTai64n "@4000000052c65e550cd675fc" =
    Some (EpochTime (hex_value "4000000052c65e55" - 2 ^ 62)
                    (hex_value "0cd675fc"), None).
Proof.
  apply (proj2 (proj1 (ParseTai64n_succeeds "@4000000052c65e550cd675fc") _)).
  repeat split; vm_compute; congruence.
Defined.

Lemma be_value_head (b : list byte) :
  List.length b = 8%nat ->
  byte_val (hd x00 b) * 2 ^ 56 <= be_value b
  < (byte_val (hd x00 b) + 1) * 2 ^ 56.
Proof.
  intros Hl.
  destruct b as [|b0 [|b1 [|b2 [|b3 [|b4 [|b5 [|b6 [|b7 [|? ?]]]]]]]]];
    try discriminate.
  unfold be_value. cbn [fold_left hd].
  pose proof (byte_val_range b0). pose proof (byte_val_range b1).
  pose proof (byte_val_range b2). pose proof (byte_val_range b3).
  pose proof (byte_val_range b4). pose proof (byte_val_range b5).
  pose proof (byte_val_range b6). pose proof (byte_val_range b7).
  lia.
Qed.

(** X2.  [DecodeTai64] returns a [nil] error exactly on the slices of 8
    bytes whose big-endian number does not exceed [2^63], with the time
    [EpochTime(number - 2^62, 0)]; on every other slice it returns the
    zero time and [parseError].  So 8 bytes are accepted when the first
    is below [0x80] and refused when it is above. *)
Theorem DecodeTai64_succeeds (b : list byte) :
  (forall t : Time,
     DecodeTai64 b = Some (t, None) <->
     List.length b = 8%nat /\ be_value b <= 2 ^ 63 /\
     t = EpochTime (be_value b - 2 ^ 62) 0) /\
  (DecodeTai64 b = failure \/ exists t, DecodeTai64 b = Some (t, None)) /\
  (List.length b = 8%nat -> byte_val (hd x00 b) < 128 ->
   exists t, DecodeTai64 b = Some (t, None)) /\
  (List.length b = 8%nat -> 128 < byte_val (hd x00 b) ->
   DecodeTai64 b = failure).
Proof.
  destruct (Nat.eq_dec (List.length b) 8) as [Hl|Hl].
  - destruct (DecodeTai64_be_value b Hl) as (Hr & ->).
    pose proof (be_value_head b Hl) as Hh.
    destruct (Z.leb_spec (be_value b) (2 ^ 63)) as [Hle|Hgt].
    + split; [|split; [right; eexists; reflexivity|split]].
      * intros t. split.
        -- intros [= <-]. repeat split; assumption.
        -- intros (_ & _ & ->). reflexivity.
      * intros _ _. eexists. reflexivity.
      * intros _ H. lia.
    + split; [|split; [left; reflexivity|split]].
      * intros t. split; [discriminate|]. intros (_ & H & _). lia.
      * intros _ H. lia.
      * intros _ _. reflexivity.
  - rewrite (DecodeTai64_wrong_length b Hl).
    split; [|split; [left; reflexivity|split]]; try (intros H; contradiction).
    intros t. split; [discriminate|]. intros (H & _). contradiction.
Qed.

Lemma DecodeTai64_succeeds_witness :
  (exists t, DecodeTai64 [x7f; xff; xff; xff; xff; xff; xff; xff]
             = Some (t, None)) /\
  DecodeTai64 [x81; x00; x00; x00; x00; x00; x00; x00] = failure.
Proof.
  split.
  - exact (proj1 (proj2 (proj2
      (DecodeTai64_succeeds [x7f; xff; xff; xff; xff; xff; xff; xff])))
      eq_refl eq_refl).
  - exact (proj2 (proj2 (proj2
      (DecodeTai64_succeeds [x81; x00; x00; x00; x00; x00; x00; x00])))
      eq_refl eq_refl).
Defined.

(** X3.  [DecodeTai64n] returns a [nil] error exactly on the slices of
    12 bytes whose first 8 bytes, big-endian, do not exceed [2^63]; the
    time is [EpochTime] of that number less [2^62] and of the
    big-endian number of the last 4 bytes, which is never refused.  On
    every other slice it returns the zero time and [parseError]. *)
Theorem DecodeTai64n_succeeds (b : list byte) :
  (forall t : Time,
     DecodeTai64n b = Some (t, None) <->
     List.length b = 12%nat /\ be_value (firstn 8 b) <= 2 ^ 63 /\
     t = EpochTime (be_value (firstn 8 b) - 2 ^ 62)
                   (be_value (skipn 8 b))) /\
  (DecodeTai64n b = failure \/ exists t, DecodeTai64n b = Some (t, None)).
Proof.
  destruct (Nat.eq_dec (List.length b) 12) as [Hl|Hl].
  - destruct (DecodeTai64n_be_value b Hl) as (Hr & Hn & ->).
    destruct (Z.leb_spec (be_value (firstn 8 b)) (2 ^ 63)) as [Hle|Hgt].
    + split; [|right; eexists; reflexivity].
      intros t. split.
      * intros [= <-]. repeat split; assumption.
      * intros (_ & _ & ->). reflexivity.
    + split; [|left; reflexivity].
      intros t. split; [discriminate|]. intros (_ & H & _). lia.
  - rewrite (DecodeTai64n_wrong_length b Hl).
    split; [|left; reflexivity].
    intros t. split; [discriminate|]. intros (H & _). contradiction.
Qed.

Lemma DecodeTai64n_succeeds_witness :
  DecodeTai64n [x40; x00; x00; x00; x52; xc6; x5e; x55; xff; xff; xff; xff]
  = Some (EpochTime 1388731989 4294967295, None).
Proof.
  apply (proj2 (proj1 (DecodeTai64n_succeeds
    [x40; x00; x00; x00; x52; xc6; x5e; x55; xff; xff; xff; xff]) _)).
  repeat split; vm_compute; congruence.
Defined.

(** X4.  Whatever the input, each of the four entry points returns
    without a panic (no index or slice is out of range), and returns
    either a time with a [nil] error or the zero time with
    [parseError], whose [Error()] is ["Parse Error"]: there is no other
    error and no time beside an error. *)
Theorem entry_points_outcome :
  let outcome (r : Result) :=
    exists t e, r = Some (t, e) /\
      (e = None \/
       (e = Some parseError /\ t = zeroTime /\ Time_IsZero t = true /\
        Error_Error parseError = "Parse Error"%string)) in
  (forall s, outcome (ParseTai64 s)) /\
  (forall s, outcome (ParseTai64n s)) /\
  (forall b, outcome (DecodeTai64 b)) /\
  (forall b, outcome (DecodeTai64n b)).
Proof.
  intros outcome.
  assert (F : forall r, (r = failure \/ exists t, r = Some (t, None)) ->
                        outcome r).
  { intros r [->|[t ->]].
    - exists zeroTime, (Some parseError). split; [reflexivity|].
      right. repeat split; reflexivity.
    - exists t, None. split; [reflexivity | left; reflexivity]. }
  destruct entry_points_total as (H1 & H2 & H3 & H4).
  repeat split; intros x; apply F; auto.
Qed.

(* ----------------------------------------------------------------- *)
(** ** How the entry points relate *)

Lemma string_length_app (s1 s2 : string) :
  String.length (s1 ++ s2) = (String.length s1 + String.length s2)%nat.
Proof. induction s1 as [|c r IH]; simpl; [reflexivity | now rewrite IH]. Qed.

Lemma substring_app_l (s1 s2 : string) :
  substring 0 (String.length s1) (s1 ++ s2) = s1.
Proof.
  induction s1 as [|c r IH]; simpl.
  - destruct s2; reflexivity.
  - now rewrite IH.
Qed.

Lemma substring_app_r (s1 s2 : string) :
  substring (String.length s1) (String.length s2) (s1 ++ s2) = s2.
Proof.
  induction s1 as [|c r IH]; simpl; [apply substring_all | exact IH].
Qed.

(** X5.  A TAI64 label is the TAI64N label with no nanoseconds: on
    every string [s], [ParseTai64(s)] returns what [ParseTai64n]
    returns on [s] followed by eight zeros. *)
Theorem ParseTai64_as_ParseTai64n (s : string) :
  ParseTai64 s = ParseTai64n (s ++ "00000000").
Proof.
  destruct s as [|c r]; [reflexivity|].
  cbn [append]. rewrite ParseTai64_cons, ParseTai64n_cons.
  rewrite string_length_app. cbn [String.length].
  destruct (Nat.eqb_spec (String.length r) 16) as [Hl|Hl].
  - rewrite Hl. cbn [Nat.add Nat.eqb].
    pose proof (substring_app_l r "00000000") as E1.
    pose proof (substring_app_r r "00000000") as E2.
    rewrite Hl in E1, E2. cbn [String.length] in E2.
    rewrite E1, E2.
    change (all_hex "00000000") with true.
    change (hex_value "00000000") with 0.
    destruct (ascii_val c =? marker), (all_hex r),
      (hex_value r <=? 2 ^ 63); reflexivity.
  - destruct (Nat.eqb_spec (String.length r + 8) 24) as [H|H]; [lia|].
    reflexivity.
Qed.

(** X6.  The same for the binary forms: on every slice [b],
    [DecodeTai64(b)] returns what [DecodeTai64n] returns on [b]
    followed by four zero bytes. *)
Theorem DecodeTai64_as_DecodeTai64n (b : list byte) :
  DecodeTai64 b = DecodeTai64n (b ++ [x00; x00; x00; x00]).
Proof.
  destruct (Nat.eq_dec (List.length b) 8) as [Hl|Hl].
  - destruct (DecodeTai64_be_value b Hl) as (_ & ->).
    assert (Hl' : List.length (b ++ [x00; x00; x00; x00]) = 12%nat)
      by (rewrite length_app, Hl; reflexivity).
    destruct (DecodeTai64n_be_value _ Hl') as (_ & _ & ->).
    destruct b as [|b0 [|b1 [|b2 [|b3 [|b4 [|b5 [|b6 [|b7 [|? ?]]]]]]]]];
      try discriminate.
    reflexivity.
  - rewrite (DecodeTai64_wrong_length b Hl).
    symmetry. apply DecodeTai64n_wrong_length.
    rewrite length_app. simpl. lia.
Qed.

Lemma hex_bytes_label (r : string) :
  String.length r = 16%nat -> all_hex r = true ->
  List.length (hex_bytes r) = 8%nat /\
  BigEndian_Uint64 (hex_bytes r) = Some (hex_value r).
Proof.
  intros Hl Hh.
  do 16 (destruct r as [|? r]; [discriminate|]).
  destruct r; [|discriminate]. clear Hl.
  cbn [all_hex] in Hh. hex_digits Hh. clear Hh.
  cbn [hex_bytes List.length].
  split; [reflexivity|].
  rewrite BigEndian_Uint64_sum.
  rewrite !byte_val_of_Z by lia.
  unfold hex_value. cbn [hex_value_acc].
  f_equal. lia.
Qed.

(** X7.  The text and the binary forms agree on every label, in range
    or not: for 16 hexadecimal digits, [DecodeTai64] of the 8 bytes
    they spell returns what [ParseTai64] returns on ['@'] and the
    digits, and for 24 digits [DecodeTai64n] of the 12 bytes returns
    what [ParseTai64n] returns, the refusal of seconds above [2^63]
    included. *)
Theorem text_and_binary_agree (r : string) :
  all_hex r = true ->
  (String.length r = 16%nat ->
   DecodeTai64 (hex_bytes r) = ParseTai64 (String "@" r)) /\
  (String.length r = 24%nat ->
   DecodeTai64n (hex_bytes r) = ParseTai64n (String "@" r)).
Proof.
  intros Hh. split; intros Hl.
  - destruct (hex_bytes_label r Hl Hh) as (L & Hv).
    destruct (DecodeTai64_length _ L) as (sec & Hv' & _ & ->).
    assert (sec = hex_value r) by congruence. subst sec.
    rewrite ParseTai64_cons, Hl, Hh. reflexivity.
  - destruct (hex_bytes_fields r Hl Hh) as (L & H64 & H32).
    destruct (DecodeTai64n_length _ L) as (sec & nsec & Hv & _ & Hn & _ & ->).
    assert (sec = hex_value (substring 0 16 r)) by congruence.
    assert (nsec = hex_value (substring 16 8 r)) by congruence.
    subst sec nsec.
    rewrite ParseTai64n_cons, Hl.
    rewrite (substring_split 16 8 r Hl), all_hex_app in Hh.
    apply andb_true_iff in Hh. destruct Hh as [Hh1 Hh2].
    rewrite Hh1, Hh2. reflexivity.
Qed.

Lemma text_and_binary_agree_witness :
  DecodeTai64 (hex_bytes "f000000037c219bf")
  = ParseTai64 "@f000000037c219bf" /\
  DecodeTai64n (hex_bytes "3FFFFFFFFFFFFFFF3b9aca00")
  = ParseTai64n "@3FFFFFFFFFFFFFFF3b9aca00".
Proof.
  split.
  - exact (proj1 (text_and_binary_agree "f000000037c219bf" eq_refl) eq_refl).
  - exact (proj2 (text_and_binary_agree "3FFFFFFFFFFFFFFF3b9aca00" eq_refl)
             eq_refl).
Defined.

(* ----------------------------------------------------------------- *)
(** ** Letter case *)

Lemma lower_ascii_hex (c : ascii) :
  is_hex (lower_ascii c) = is_hex c /\
  (is_hex c = true -> hex_digit (lower_ascii c) = hex_digit c) /\
  (ascii_val (lower_ascii c) =? marker) = (ascii_val c =? marker).
Proof.
  destruct c as [b0 b1 b2 b3 b4 b5 b6 b7].
  destruct b0, b1, b2, b3, b4, b5, b6, b7; vm_compute;
    repeat split; congruence.
Qed.

Lemma lower_string_length (s : string) :
  String.length (lower_string s) = String.length s.
Proof. induction s as [|c r IH]; simpl; [reflexivity | now rewrite IH]. Qed.

Lemma lower_string_all_hex (s : string) :
  all_hex (lower_string s) = all_hex s.
Proof.
  induction s as [|c r IH]; cbn [lower_string all_hex]; [reflexivity|].
  now rewrite IH, (proj1 (lower_ascii_hex c)).
Qed.

Lemma lower_string_hex_value (s : string) :
  all_hex s = true ->
  forall n, hex_value_acc (lower_string s) n = hex_value_acc s n.
Proof.
  induction s as [|c r IH]; cbn [lower_string all_hex hex_value_acc];
    intros H n; [reflexivity|].
  apply andb_true_iff in H. destruct H as [Hc Hr].
  rewrite (proj1 (proj2 (lower_ascii_hex c)) Hc). apply IH. exact Hr.
Qed.

Lemma lower_string_substring (n m : nat) (s : string) :
  substring n m (lower_string s) = lower_string (substring n m s).
Proof.
  revert n m. induction s as [|c r IH]; intros n m.
  - destruct n, m; reflexivity.
  - destruct n as [|n].
    + destruct m as [|m]; [reflexivity|].
      cbn [lower_string substring]. now rewrite IH.
    + cbn [lower_string substring]. apply IH.
Qed.

Lemma ParseTai64_lower (s : string) :
  ParseTai64 (lower_string s) = ParseTai64 s.
Proof.
  destruct s as [|c r]; [reflexivity|].
  cbn [lower_string]. rewrite !ParseTai64_cons.
  rewrite lower_string_length, lower_string_all_hex.
  rewrite (proj2 (proj2 (lower_ascii_hex c))).
  destruct (String.length r =? 16)%nat, (ascii_val c =? marker);
    try reflexivity.
  destruct (all_hex r) eqn:Hh; [|reflexivity].
  unfold hex_value. rewrite lower_string_hex_value by exact Hh. reflexivity.
Qed.

Lemma ParseTai64n_lower (s : string) :
  ParseTai64n (lower_string s) = ParseTai64n s.
Proof.
  destruct s as [|c r]; [reflexivity|].
  cbn [lower_string]. rewrite !ParseTai64n_cons.
  rewrite lower_string_length, !lower_string_substring,
    !lower_string_all_hex.
  rewrite (proj2 (proj2 (lower_ascii_hex c))).
  destruct (String.length r =? 24)%nat, (ascii_val c =? marker);
    try reflexivity.
  destruct (all_hex (substring 0 16 r)) eqn:Hh1; [|reflexivity].
  destruct (all_hex (substring 16 8 r)) eqn:Hh2; [|reflexivity].
  unfold hex_value. rewrite !lower_string_hex_value by assumption.
  reflexivity.
Qed.

(** X8.  The case of the letters does not matter: two strings that are
    equal once [A] to [Z] are put in lower case get the same result
    from [ParseTai64] and from [ParseTai64n], a refusal or a time. *)
Theorem parse_ignores_case (s1 s2 : string) :
  lower_string s1 = lower_string s2 ->
  ParseTai64 s1 = ParseTai64 s2 /\ ParseTai64n s1 = ParseTai64n s2.
Proof.
  intros H. split.
  - rewrite <- (ParseTai64_lower s1), <- (ParseTai64_lower s2), H.
    reflexivity.
  - rewrite <- (ParseTai64n_lower s1), <- (ParseTai64n_lower s2), H.
    reflexivity.
Qed.

Lemma parse_ignores_case_witness :
  ParseTai64 "@400000002A2B2C2D" = ParseTai64 "@400000002a2b2c2d" /\
  ParseTai64n "@4000000037C219BF2EF02E94" = ParseTai64n "@4000000037c219bf2ef02e94".
Proof.
  split.
  - exact (proj1 (parse_ignores_case
      "@400000002A2B2C2D" "@400000002a2b2c2d" eq_refl)).
  - exact (proj2 (parse_ignores_case
      "@4000000037C219BF2EF02E94" "@4000000037c219bf2ef02e94" eq_refl)).
Defined.

(* ----------------------------------------------------------------- *)
(** ** The times that accepted labels give *)

Lemma unixToInternal_value : unixToInternal = 62135596800.
Proof. reflexivity. Qed.

(** The seconds and nanoseconds the entry points pass to [EpochTime]
    are far from the ends of int64. *)
Lemma EpochTime_decoded (secs nsecs : Z) :
  - 2 ^ 62 <= secs <= 2 ^ 62 -> 0 <= nsecs < 2 ^ 32 ->
  in_int64 secs /\ in_int64 nsecs /\ fits secs nsecs /\
  0 <= nsecs / 1000000000 <= 4 /\
  EpochTime secs nsecs =
    mkTime (secs - EpochTime_offset secs + nsecs / 1000000000
            + unixToInternal)
           (nsecs mod 1000000000) time_Local.
Proof.
  intros Hs Hn.
  assert (Is : in_int64 secs) by (int_unfold; lia).
  assert (In : in_int64 nsecs) by (int_unfold; lia).
  assert (Hq : 0 <= nsecs / 1000000000 <= 4).
  { Z.to_euclidean_division_equations. lia. }
  assert (Hf : fits secs nsecs).
  { unfold fits. rewrite unixToInternal_value. int_unfold. lia. }
  repeat (split; [assumption|]).
  apply EpochTime_fits; assumption.
Qed.

(** X9.  For every slice that [DecodeTai64n] accepts nothing wraps
    around: with [secs] the first 8 bytes less [2^62] and [nsecs] the
    last 4, the time returned lies [secs - offset] seconds after the
    Unix epoch, [offset] between 10 and 35, plus the whole seconds of
    [nsecs]; a nanosecond field of [10^9] or more is not refused, it
    carries up to 4 seconds. *)
Theorem DecodeTai64n_instant (b : list byte) (t : Time) :
  DecodeTai64n b = Some (t, None) ->
  let secs := be_value (firstn 8 b) - 2 ^ 62 in
  let nsecs := be_value (skipn 8 b) in
  Time_Unix t = secs - EpochTime_offset secs + nsecs / 1000000000 /\
  Time_Nanosecond t = nsecs mod 1000000000 /\
  0 <= nsecs / 1000000000 <= 4 /\
  10 <= EpochTime_offset secs <= 35 /\
  - 2 ^ 62 <= secs <= 2 ^ 62.
Proof.
  intros H secs nsecs.
  destruct (Nat.eq_dec (List.length b) 12) as [Hl|Hl];
    [|rewrite (DecodeTai64n_wrong_length b Hl) in H; discriminate].
  destruct (DecodeTai64n_be_value b Hl) as (Hr & Hn & E).
  rewrite E in H.
  destruct (Z.leb_spec (be_value (firstn 8 b)) (2 ^ 63)) as [Hle|Hgt];
    [|discriminate].
  injection H as <-. fold secs nsecs.
  assert (Hs : - 2 ^ 62 <= secs <= 2 ^ 62) by (subst secs; lia).
  destruct (EpochTime_decoded secs nsecs Hs Hn) as (Is & In & Hf & Hq & _).
  destruct (fits_no_wrap secs nsecs Hf) as [Hlo Hhi].
  split; [apply Time_Unix_EpochTime_exact; assumption|].
  split; [apply Time_Nanosecond_EpochTime; exact In|].
  split; [exact Hq|]. split; [apply EpochTime_offset_range | exact Hs].
Qed.

Lemma DecodeTai64n_instant_witness :
  Time_Unix (EpochTime 1388731989 4294967295)
  = 1388731989 - EpochTime_offset 1388731989 + 4294967295 / 1000000000.
Proof.
  exact (proj1 (DecodeTai64n_instant
    [x40; x00; x00; x00; x52; xc6; x5e; x55; xff; xff; xff; xff]
    (EpochTime 1388731989 4294967295) eq_refl)).
Defined.

(** X10.  [DecodeTai64] keeps the order of the labels: when it accepts
    two slices and the number of the first does not exceed the number
    of the second, the second time is not before the first, and the
    Unix seconds between the two times are the seconds between the two
    labels less at most 25. *)
Theorem DecodeTai64_monotone (b1 b2 : list byte) (t1 t2 : Time) :
  DecodeTai64 b1 = Some (t1, None) ->
  DecodeTai64 b2 = Some (t2, None) ->
  be_value b1 <= be_value b2 ->
  Time_Before t2 t1 = false /\
  be_value b2 - be_value b1 - 25
  <= Time_Unix t2 - Time_Unix t1
  <= be_value b2 - be_value b1.
Proof.
  intros H1 H2 Hle.
  destruct (Nat.eq_dec (List.length b1) 8) as [L1|L1];
    [|rewrite (DecodeTai64_wrong_length b1 L1) in H1; discriminate].
  destruct (Nat.eq_dec (List.length b2) 8) as [L2|L2];
    [|rewrite (DecodeTai64_wrong_length b2 L2) in H2; discriminate].
  destruct (DecodeTai64_be_value b1 L1) as (R1 & E1).
  destruct (DecodeTai64_be_value b2 L2) as (R2 & E2).
  rewrite E1 in H1. rewrite E2 in H2.
  destruct (Z.leb_spec (be_value b1) (2 ^ 63)); [|discriminate].
  destruct (Z.leb_spec (be_value b2) (2 ^ 63)); [|discriminate].
  assert (t1 = EpochTime (be_value b1 - 2 ^ 62) 0) by congruence.
  assert (t2 = EpochTime (be_value b2 - 2 ^ 62) 0) by congruence.
  subst t1 t2. clear H1 H2.
  set (s1 := be_value b1 - 2 ^ 62). set (s2 := be_value b2 - 2 ^ 62).
  assert (Hs1 : - 2 ^ 62 <= s1 <= 2 ^ 62) by (subst s1; lia).
  assert (Hs2 : - 2 ^ 62 <= s2 <= 2 ^ 62) by (subst s2; lia).
  assert (Hs : s1 <= s2) by (subst s1 s2; lia).
  destruct (EpochTime_decoded s1 0 Hs1 ltac:(lia)) as (_ & _ & _ & _ & T1).
  destruct (EpochTime_decoded s2 0 Hs2 ltac:(lia)) as (_ & _ & _ & _ & T2).
  pose proof (EpochTime_offset_crossed s1 s2 Hs) as Hoff.
  pose proof (crossed_descending _ removelast_descending s1 s2 Hs) as Hc.
  assert (Hc25 : (List.length (crossed s1 s2 (removelast leapSeconds))
                  <= 25)%nat).
  { unfold crossed. etransitivity; [apply filter_length_le | reflexivity]. }
  rewrite T1, T2. unfold Time_Before, Time_Unix, internalToUnix.
  cbn [sec nsec]. change (0 / 1000000000) with 0.
  change (0 mod 1000000000) with 0. rewrite unixToInternal_value.
  pose proof (EpochTime_offset_range s1) as O1.
  pose proof (EpochTime_offset_range s2) as O2.
  rewrite !wrap_int64_id by (int_unfold; lia).
  split; [|subst s1 s2; lia].
  apply orb_false_iff. split; [apply Z.ltb_ge; lia|].
  apply andb_false_iff. right. reflexivity.
Qed.

Lemma DecodeTai64_monotone_witness :
  Time_Before (EpochTime 78796811 0) (EpochTime 78796810 0) = false.
Proof.
  exact (proj1 (DecodeTai64_monotone
    [x40; x00; x00; x00; x04; xb2; x58; x0a]
    [x40; x00; x00; x00; x04; xb2; x58; x0b]
    (EpochTime 78796810 0) (EpochTime 78796811 0)
    eq_refl eq_refl ltac:(vm_compute; discriminate))).
Defined.

(* ----------------------------------------------------------------- *)
(** ** Leap seconds *)

Lemma filter_pos {A : Type} (f : A -> bool) (x : A) (l : list A) :
  In x l -> f x = true -> (1 <= List.length (filter f l))%nat.
Proof.
  intros Hx Hf. assert (H : In x (filter f l)) by (apply filter_In; auto).
  destruct (filter f l); [contradiction | simpl; lia].
Qed.

Lemma leap_entries :
  Forall (fun l => 78796810 <= l <= 1341100834 /\
                   EpochTime_offset (l + 1) = EpochTime_offset l + 1)
         (removelast leapSeconds).
Proof.
  repeat constructor; try (vm_compute; congruence).
Qed.

Lemma count_lt_count_ge (s : Z) (tbl : list Z) :
  (count_lt s tbl + count_ge s tbl = List.length tbl)%nat.
Proof.
  unfold count_lt, count_ge.
  rewrite <- (filter_length (fun l => s <=? l) tbl).
  rewrite Nat.add_comm. f_equal. f_equal.
  apply filter_ext. intros l. now rewrite Z.ltb_antisym.
Qed.

(** X11.  The offset [EpochTime] subtracts is 10 plus the number of
    table entries, the oldest apart, that lie strictly before [secs].
    It is 10 exactly up to 78796810 (mid 1972, and so for every time
    before 1970), 35 exactly after 1341100834, the newest entry, however
    far, and it never decreases as [secs] grows. *)
Theorem EpochTime_offset_leaps (secs : Z) :
  EpochTime_offset secs
  = 10 + Z.of_nat (count_lt secs (removelast leapSeconds)) /\
  (EpochTime_offset secs = 10 <-> secs <= 78796810) /\
  (EpochTime_offset secs = 35 <-> 1341100834 < secs) /\
  (forall b, secs <= b -> EpochTime_offset secs <= EpochTime_offset b).
Proof.
  pose proof (count_lt_count_ge secs (removelast leapSeconds)) as Hc.
  change (List.length (removelast leapSeconds)) with 25%nat in Hc.
  pose proof (EpochTime_offset_count secs) as Ho.
  pose proof leap_entries as Hall. rewrite Forall_forall in Hall.
  split; [lia|]. split; [|split].
  - split; [|apply EpochTime_offset_early].
    intros H10. destruct (Z.le_gt_cases secs 78796810) as [H|H]; [exact H|].
    assert (1 <= count_lt secs (removelast leapSeconds))%nat.
    { apply (filter_pos _ 78796810).
      - unfold leapSeconds. simpl removelast. simpl. tauto.
      - apply Z.ltb_lt. lia. }
    lia.
  - split.
    + intros H35.
      destruct (Z.le_gt_cases secs 1341100834) as [H|H]; [|lia].
      assert (1 <= count_ge secs (removelast leapSeconds))%nat.
      { apply (filter_pos _ 1341100834).
        - unfold leapSeconds. simpl removelast. simpl. tauto.
        - apply Z.leb_le. exact H. }
      lia.
    + intros H. rewrite Ho, count_ge_none; [reflexivity|].
      apply Forall_forall. intros l Hl.
      destruct (Hall l Hl) as [[_ Hmax] _]. lia.
  - intros b Hb. rewrite (EpochTime_offset_crossed secs b Hb). lia.
Qed.

Lemma EpochTime_offset_leaps_witness :
  EpochTime_offset 0 <= EpochTime_offset 2000000000.
Proof.
  apply (proj2 (proj2 (proj2 (EpochTime_offset_leaps 0))) 2000000000).
  lia.
Defined.

(** X12.  At a leap second time steps back.  For an entry [l] of the
    table, the oldest apart, the TAI seconds [l] and [l + 1] give the
    same Unix second, so a later instant of second [l + 1] comes out
    before an earlier instant of second [l] whenever its nanoseconds
    are fewer. *)
Theorem leap_second_steps_back (l n1 n2 : Z) :
  In l (removelast leapSeconds) ->
  0 <= n2 -> n2 < n1 -> n1 < 1000000000 ->
  Time_Unix (EpochTime (l + 1) n2) = Time_Unix (EpochTime l n1) /\
  Time_Before (EpochTime (l + 1) n2) (EpochTime l n1) = true.
Proof.
  intros Hl H2 H12 H1.
  pose proof leap_entries as Hall. rewrite Forall_forall in Hall.
  destruct (Hall l Hl) as [Hr Hoff].
  destruct (EpochTime_decoded l n1) as (_ & _ & _ & _ & T1);
    [lia | lia |].
  destruct (EpochTime_decoded (l + 1) n2) as (_ & _ & _ & _ & T2);
    [lia | lia |].
  rewrite T1, T2, Hoff.
  rewrite !Z.div_small, !Z.mod_small by lia.
  unfold Time_Unix, Time_Before. cbn [sec nsec].
  split.
  - f_equal. lia.
  - apply orb_true_iff. right. apply andb_true_iff. split.
    + apply Z.eqb_eq. lia.
    + apply Z.ltb_lt. exact H12.
Qed.

Lemma leap_second_steps_back_witness :
  Time_Before (EpochTime 1341100835 0) (EpochTime 1341100834 999999999)
  = true.
Proof.
  apply (leap_second_steps_back 1341100834 999999999 0);
    [simpl; tauto | lia | lia | lia].
Defined.

Lemma crossed_add (a m b : Z) (tbl : list Z) :
  a <= m -> m <= b ->
  List.length (crossed a b tbl)
  = (List.length (crossed a m tbl) + List.length (crossed m b tbl))%nat.
Proof.
  intros Ham Hmb. unfold crossed.
  induction tbl as [|l rest IH]; [reflexivity|]. simpl.
  destruct (Z.leb_spec a l), (Z.ltb_spec l b), (Z.ltb_spec l m),
    (Z.leb_spec m l); simpl; lia.
Qed.

Lemma crossed_unit (a : Z) (tbl : list Z) :
  (1 <= List.length (crossed a (a + 1) tbl))%nat -> In a tbl.
Proof.
  unfold crossed. intros H.
  destruct (filter (fun l => (a <=? l) && (l <? a + 1)) tbl) as [|x r] eqn:E;
    [simpl in H; lia|].
  assert (Hx : In x (filter (fun l => (a <=? l) && (l <? a + 1)) tbl))
    by (rewrite E; left; reflexivity).
  apply filter_In in Hx. destruct Hx as [Hin Hc].
  apply andb_true_iff in Hc. destruct Hc as [H1 H2].
  apply Z.leb_le in H1. apply Z.ltb_lt in H2.
  replace a with x by lia. exact Hin.
Qed.

Lemma leap_entries_apart (l : Z) :
  In l (removelast leapSeconds) -> ~ In (l + 1) (removelast leapSeconds).
Proof.
  assert (C : forallb (fun l => negb (existsb (Z.eqb (l + 1))
                                        (removelast leapSeconds)))
                      (removelast leapSeconds) = true)
    by (vm_compute; reflexivity).
  rewrite forallb_forall in C. intros Hl Hn.
  specialize (C l Hl). apply negb_true_iff in C.
  assert (E : existsb (Z.eqb (l + 1)) (removelast leapSeconds) = true).
  { apply existsb_exists. exists (l + 1). split; [exact Hn|].
    apply Z.eqb_refl. }
  congruence.
Qed.

(** X13.  Where nothing wraps around, two TAI seconds [a < b] (with the
    same nanoseconds) give the same Unix second exactly when [a] is an
    entry of the table, the oldest apart, and [b] is the second after
    it: no Unix second is given by three TAI seconds, and none by two
    away from a leap second. *)
Theorem same_unix_second (a b n : Z) :
  in_int64 a -> in_int64 b -> in_int64 n ->
  a < b -> fits a n -> fits b n ->
  (Time_Unix (EpochTime a n) = Time_Unix (EpochTime b n) <->
   In a (removelast leapSeconds) /\ b = a + 1).
Proof.
  intros Ha Hb Hn Hab Hfa Hfb.
  destruct (fits_no_wrap a n Hfa) as [Hla Hha].
  destruct (fits_no_wrap b n Hfb) as [Hlb Hhb].
  rewrite !Time_Unix_EpochTime_exact by assumption.
  pose proof (EpochTime_offset_crossed a b ltac:(lia)) as Hoff.
  set (R := removelast leapSeconds) in *.
  pose proof (crossed_add a (a + 1) b R ltac:(lia) ltac:(lia)) as Hadd.
  pose proof (crossed_descending R removelast_descending a (a + 1)
                ltac:(lia)) as B1.
  pose proof (crossed_descending R removelast_descending (a + 1) b
                ltac:(lia)) as B2.
  split.
  - intros E.
    assert (H1 : (1 <= List.length (crossed a (a + 1) R))%nat) by lia.
    pose proof (crossed_unit a R H1) as Hin.
    split; [exact Hin|].
    destruct (Z.eq_dec b (a + 1)) as [|Hne]; [assumption|].
    exfalso.
    pose proof (crossed_add (a + 1) (a + 2) b R ltac:(lia) ltac:(lia))
      as Hadd2.
    pose proof (crossed_descending R removelast_descending (a + 1) (a + 2)
                  ltac:(lia)) as B3.
    pose proof (crossed_descending R removelast_descending (a + 2) b
                  ltac:(lia)) as B4.
    assert (H2 : (1 <= List.length (crossed (a + 1) (a + 1 + 1) R))%nat).
    { replace (a + 1 + 1) with (a + 2) by ring. lia. }
    apply (leap_entries_apart a Hin). exact (crossed_unit (a + 1) R H2).
  - intros [Hin ->].
    pose proof leap_entries as Hall. rewrite Forall_forall in Hall.
    destruct (Hall a Hin) as [_ E]. lia.
Qed.

Lemma same_unix_second_witness :
  Time_Unix (EpochTime 1230768033 7) = Time_Unix (EpochTime 1230768034 7).
Proof.
  assert (I : forall s, 0 <= s <= 2000000000 -> in_int64 s)
    by (intros s Hs; int_unfold; lia).
  assert (F : forall s, 0 <= s <= 2000000000 -> fits s 7).
  { intros s Hs. unfold fits. change (7 / 1000000000) with 0.
    change unixToInternal with 62135596800. int_unfold. lia. }
  apply (proj2 (same_unix_second 1230768033 1230768034 7
    (I 1230768033 ltac:(lia)) (I 1230768034 ltac:(lia)) (I 7 ltac:(lia))
    ltac:(lia) (F 1230768033 ltac:(lia)) (F 1230768034 ltac:(lia)))).
  split; [simpl; tauto | reflexivity].
Defined.

(* ----------------------------------------------------------------- *)
(** ** The zero time *)

(** X14.  A time returned with a [nil] error is never the value
    [time.Time{}] that comes with [parseError] (its location is
    [Local]), but [IsZero] cannot tell them apart for one instant:
    the time [DecodeTai64n] returns for an accepted slice has [IsZero]
    true exactly when its seconds less [2^62], plus the whole seconds
    of its nanoseconds, are [10 - 62135596800] and no nanoseconds
    remain, that is for the first second of year 1. *)
Theorem zero_time_on_success (b : list byte) (t : Time) :
  DecodeTai64n b = Some (t, None) ->
  t <> zeroTime /\
  (Time_IsZero t = true <->
   be_value (firstn 8 b) - 2 ^ 62 + be_value (skipn 8 b) / 1000000000
   = 10 - 62135596800 /\
   be_value (skipn 8 b) mod 1000000000 = 0).
Proof.
  intros H.
  destruct (Nat.eq_dec (List.length b) 12) as [Hl|Hl];
    [|rewrite (DecodeTai64n_wrong_length b Hl) in H; discriminate].
  destruct (DecodeTai64n_be_value b Hl) as (Hr & Hn & E).
  rewrite E in H.
  destruct (Z.leb_spec (be_value (firstn 8 b)) (2 ^ 63)) as [Hle|Hgt];
    [|discriminate].
  assert (Ht : t = EpochTime (be_value (firstn 8 b) - 2 ^ 62)
                             (be_value (skipn 8 b))) by congruence.
  clear H E. subst t.
  set (s := be_value (firstn 8 b) - 2 ^ 62).
  set (n := be_value (skipn 8 b)) in *.
  assert (Hs : - 2 ^ 62 <= s <= 2 ^ 62) by (subst s; lia).
  destruct (EpochTime_decoded s n Hs Hn) as (_ & _ & _ & Hq & ->).
  split; [discriminate|].
  unfold Time_IsZero. cbn [sec nsec]. rewrite unixToInternal_value.
  pose proof (EpochTime_offset_range s) as Ho.
  assert (Hcase : EpochTime_offset s = 10 \/ 78796810 < s).
  { destruct (Z.le_gt_cases s 78796810) as [Hc|Hc];
      [left; apply EpochTime_offset_early; exact Hc | right; lia]. }
  rewrite andb_true_iff, !Z.eqb_eq.
  split.
  - intros [H1 H2]. split; [lia | exact H2].
  - intros [H1 H2]. split; [|exact H2].
    assert (H10 : EpochTime_offset s = 10)
      by (apply EpochTime_offset_early; lia).
    lia.
Qed.

Lemma zero_time_on_success_witness :
  EpochTime (-62135596790) 0 <> zeroTime /\
  Time_IsZero (EpochTime (-62135596790) 0) = true.
Proof.
  pose proof (zero_time_on_success
    [x3f; xff; xff; xf1; x88; x6e; x09; x0a; x00; x00; x00; x00]
    (EpochTime (-62135596790) 0) eq_refl) as H.
  split; [exact (proj1 H)|].
  apply (proj2 (proj2 H)). split; vm_compute; reflexivity.
Defined.
